(** * sht4x: a shallow embedding of the SHT4x driver

    The Go package [sht4x] (files [sht4x.go] and [constants.go]) drives a
    Sensirion SHT4x temperature / humidity sensor over I2C.  This file
    embeds the driver: the CRC-8 check of the wire format, the conversion
    of raw ticks to physical values (IEEE binary64, as Go's [float64]),
    the bus protocol of every command as an event trace, and the locking
    discipline of the device handle together with its background worker
    as a small-step transition system.

    Conventions.  A Go [byte] / [uint8] is a [Z] in [0, 256) with the
    wrap-around written out ([uint8]); [uint16], [uint32], [int32] and
    [int64] likewise.  A Go [error] is [option error], [None] being [nil].
    A [time.Duration] is a [Z] counting nanoseconds. *)

From Stdlib Require Import ZArith List String Bool Lia.
From Stdlib Require Import QArith Qabs Floats.
Import ListNotations.
Open Scope string_scope.
Open Scope list_scope.
Open Scope Z_scope.

(* ================================================================== *)
(** ** Machine integers *)

Definition uint8 (z : Z) : Z := z mod 256.
Definition uint16 (z : Z) : Z := z mod 65536.
Definition uint32 (z : Z) : Z := z mod 4294967296.

(** Two's complement wrap-around of the signed types. *)
Definition signed (bits : Z) (z : Z) : Z :=
  let m := z mod 2 ^ bits in
  if m <? 2 ^ (bits - 1) then m else m - 2 ^ bits.
Definition int32 (z : Z) : Z := signed 32 z.
Definition int64 (z : Z) : Z := signed 64 z.

Definition is_byte (z : Z) : bool := (0 <=? z) && (z <? 256).

(* ================================================================== *)
(** ** Errors

    The driver builds its errors with [errors.New] and, in [wrap], with
    [fmt.Errorf("%s: %v", strings.ToLower(d.Name), err)].  Errors that
    come back from the bus transport are opaque to the driver. *)

Inductive error : Type :=
| errors_New (msg : string)
| wrap_error (name : string) (err : error)
| bus_error (msg : string).

(** The error names of the specification, as the values the code builds. *)
Definition InvalidLengthError : error := errors_New "sht4x: invalid data length".
Definition ChecksumError : error := errors_New "sht4x: invalid checksum".
Definition InvalidModeError : error := errors_New "sht4x: invalid heater mode".
Definition AlreadySensingError (name : string) : error :=
  wrap_error name (errors_New "already sensing continuously").

(* ================================================================== *)
(** ** constants.go *)

Definition commandHeaterHigh1s : Z := 0x39.
Definition commandHeaterHigh100ms : Z := 0x32.
Definition commandHeaterMedium1s : Z := 0x2F.
Definition commandHeaterMedium100ms : Z := 0x24.
Definition commandHeaterLow1s : Z := 0x1E.
Definition commandHeaterLow100ms : Z := 0x15.

Definition commandMeasureHighPrecision : Z := 0xFD.
Definition commandMeasureMediumPrecision : Z := 0xF6.
Definition commandMeasureLowPrecision : Z := 0xE0.
Definition commandReadSerialNumber : Z := 0x89.
Definition commandSoftReset : Z := 0x94.

Definition HeaterLow : Z := 0.
Definition HeaterLowLong : Z := 1.
Definition HeaterMedium : Z := 2.
Definition HeaterMediumLong : Z := 3.
Definition HeaterHigh : Z := 4.
Definition HeaterHighLong : Z := 5.

(* ================================================================== *)
(** ** Checksum unit ([checksum], [verifyChecksum], [readUint]) *)

(** One pass of the inner loop body of [checksum]:
    [if crc&0x80 != 0 { crc = (crc << 1) ^ 0x31 } else { crc = crc << 1 }]
    on a [uint8]. *)
Definition crcShift (crc : Z) : Z :=
  if negb (Z.land crc 0x80 =? 0)
  then Z.lxor (uint8 (Z.shiftl crc 1)) 0x31
  else uint8 (Z.shiftl crc 1).

(** [for j := 0; j < 8; j++ { ... }] run for [n] remaining iterations. *)
Fixpoint crcBits (n : nat) (crc : Z) : Z :=
  match n with
  | O => crc
  | S n' => crcBits n' (crcShift crc)
  end.

(** [for i := 0; i < len(data); i++ { crc ^= data[i]; ... }]. *)
Fixpoint checksumLoop (data : list Z) (crc : Z) : Z :=
  match data with
  | [] => crc
  | b :: rest => checksumLoop rest (crcBits 8 (Z.lxor crc b))
  end.

Definition checksum (data : list Z) : Z := checksumLoop data 0xFF.

Definition verifyChecksum (data : list Z) : option error :=
  if negb (Nat.eqb (List.length data) 3) then Some InvalidLengthError
  else if negb (nth 2 data 0 =? checksum (firstn 2 data)) then Some ChecksumError
  else None.

Definition readUint (msb lsb : Z) : Z :=
  Z.lor (uint16 (Z.shiftl msb 8)) lsb.

(** The CRC-8 of specification section 4.1, written from its words: an
    8-bit accumulator starting at 0xFF; each data byte is XORed in, then
    eight times: when the high bit is set, shift left and XOR with the
    polynomial 0x31, otherwise shift left. *)
Module Crc8Spec.

Definition polynomial : Z := 0x31.

Definition shift_left (acc : Z) : Z := (2 * acc) mod 256.

Definition round (acc : Z) : Z :=
  if Z.testbit acc 7 then Z.lxor (shift_left acc) polynomial
  else shift_left acc.

Definition absorb (acc byte : Z) : Z := Nat.iter 8 round (Z.lxor acc byte).

Definition compute (data : list Z) : Z := fold_left absorb data 0xFF.

End Crc8Spec.

(** [flipBit n block] flips bit [n mod 8] of byte [n / 8] of [block]. *)
Fixpoint flipBit (n : nat) (block : list Z) : list Z :=
  match block with
  | [] => []
  | b :: rest =>
      if Nat.ltb n 8 then Z.lxor b (2 ^ Z.of_nat n) :: rest
      else b :: flipBit (n - 8) rest
  end.

(** Bounded universal quantification over [lo, lo + n), by evaluation. *)
Fixpoint forall_from (lo : Z) (n : nat) (P : Z -> bool) : bool :=
  match n with
  | O => true
  | S k => P lo && forall_from (lo + 1) k P
  end.

(* ================================================================== *)
(** ** Physical units (package [periph.io/x/conn/v3/physic])

    The driver stores its readings in [physic.Env].  [physic.Temperature]
    is an [int64] counting nano-Kelvin and [physic.RelativeHumidity] an
    [int32] counting tenths of a micro-percent; the unit constants below
    are the library's. *)
Module physic.

Definition NanoKelvin : Z := 1.
Definition MicroKelvin : Z := 1000 * NanoKelvin.
Definition MilliKelvin : Z := 1000 * MicroKelvin.
Definition Kelvin : Z := 1000 * MilliKelvin.
Definition ZeroCelsius : Z := 273150 * MilliKelvin.
Definition MilliCelsius : Z := MilliKelvin.
Definition Celsius : Z := Kelvin.

Definition TenthMicroRH : Z := 1.
Definition MicroRH : Z := 10 * TenthMicroRH.
Definition MilliRH : Z := 1000 * MicroRH.
Definition PercentRH : Z := 10 * MilliRH.

Record Env : Type := mkEnv { Temperature : Z; Pressure : Z; Humidity : Z }.

(** [physic.Env{}] *)
Definition zero : Env := mkEnv 0 0 0.

End physic.

(* ================================================================== *)
(** ** Unit converter (the arithmetic of [parseTemperature])

    Go's [float64] is IEEE 754 binary64, which is what Rocq's primitive
    [float] is; the operations below are the correctly rounded ones. *)

(** [float64(ticks)] for a [uint16]: exact. *)
Definition float64_of_uint16 (ticks : Z) : float :=
  PrimFloat.of_uint63 (Uint63.of_Z ticks).

(** [temp := (-45 + (175 * float64(tTicks) / 65535))] *)
Definition ticksToTemperature (tTicks : Z) : float :=
  (-45 + (175 * float64_of_uint16 tTicks / 65535))%float.

(** [rh := (-6 + (125 * float64(rhTicks) / 65535))] *)
Definition rawHumidity (rhTicks : Z) : float :=
  (-6 + (125 * float64_of_uint16 rhTicks / 65535))%float.

(** [if rh < 0 { rh = 0 } else if rh > 100 { rh = 100 }] *)
Definition clampHumidity (rh : float) : float :=
  if (rh <? 0)%float then 0%float
  else if (100 <? rh)%float then 100%float
  else rh.

Definition ticksToHumidity (rhTicks : Z) : float :=
  clampHumidity (rawHumidity rhTicks).

(** The exact value of a finite float, [m * 2^e], as an integer pair. *)
Definition float_mantissa_exponent (f : float) : Z * Z :=
  match Prim2SF f with
  | S754_finite s m e => (if s then Z.neg m else Z.pos m, e)
  | _ => (0, 0)
  end.

(** Conversion of a [float64] to an integer type discards the fraction
    (truncation towards zero).  Go leaves the result open for NaN and
    infinities; the driver never converts one, and the model returns 0. *)
Definition float_trunc (f : float) : Z :=
  let '(m, e) := float_mantissa_exponent f in
  if 0 <=? e then m * 2 ^ e else Z.quot m (2 ^ (- e)).

(** The exact rational value of a finite float. *)
Definition float_to_Q (f : float) : Q :=
  let '(m, e) := float_mantissa_exponent f in
  (inject_Z m * Qpower 2 e)%Q.

Definition is_finite (f : float) : bool :=
  negb (PrimFloat.is_nan f) && negb (PrimFloat.is_infinity f).

(** [e.Temperature = physic.Temperature(temp*1000)*physic.MilliCelsius
                     + physic.ZeroCelsius] *)
Definition envTemperature (temp : float) : Z :=
  int64 (int64 (int64 (float_trunc (temp * 1000)%float) * physic.MilliCelsius)
         + physic.ZeroCelsius).

(** [e.Humidity = physic.RelativeHumidity(rh*10000) * physic.MicroRH] *)
Definition envHumidity (rh : float) : Z :=
  int32 (int32 (float_trunc (rh * 10000)%float) * physic.MicroRH).

(** The formulas of specification section 4.2 over the rationals. *)
Module ConverterSpec.


Definition rawHumidity (ticks : Z) : Q :=
  (-6 + 125 * inject_Z ticks / 65535)%Q.

Definition clamp (lo hi x : Q) : Q :=
  if Qle_bool x lo then lo else if Qle_bool hi x then hi else x.

Definition humidity (ticks : Z) : Q := clamp 0 100 (rawHumidity ticks).

(** Floating-point tolerance of the comparison: 2^-45. *)
Definition tolerance : Q := 1 # 35184372088832.

Definition close (x y : Q) : bool := Qle_bool (Qabs (x - y)) tolerance.

End ConverterSpec.


Definition humidity_ok (rhTicks : Z) : bool :=
  let rh := ticksToHumidity rhTicks in
  is_finite rh
  && ConverterSpec.close (float_to_Q rh) (ConverterSpec.humidity rhTicks)
  && ((0 <=? rh)%float && (rh <=? 100)%float)
  && ((0 <=? envHumidity rh) && (envHumidity rh <=? 100 * physic.PercentRH)).

(* ================================================================== *)
(** ** The bus and the driver's observable effects

    The I2C transport is an external collaborator.  Everything the driver
    does to the outside world is recorded, in order, in a trace of events;
    the transport is an oracle that answers a transaction from the trace
    up to and including that transaction. *)

Inductive event : Type :=
| EvTx (addr : Z) (w : list Z) (rlen : nat)  (* d.c.Tx(w, r), len(r) = rlen *)
| EvSleep (d : Z)                            (* time.Sleep(d) *)
| EvPrintf (err : error).                    (* fmt.Printf in the worker *)

(** A reply: the transport's error message, if it failed, and the bytes it
    read. *)
Record TxReply : Type := mkReply { tx_err : option string; tx_data : list Z }.

Definition Bus : Type := list event -> TxReply.

Definition Millisecond : Z := 1000000.

(** Computations that extend the trace. *)
Definition IO (A : Type) : Type := list event -> A * list event.

Definition ret {A} (a : A) : IO A := fun tr => (a, tr).

Definition bind {A B} (m : IO A) (k : A -> IO B) : IO B :=
  fun tr => let (a, tr') := m tr in k a tr'.

Notation "x <- m ;; k" := (bind m (fun x => k))
  (at level 61, m at next level, right associativity).
Notation "' p <- m ;; k" := (bind m (fun x => let p := x in k))
  (at level 61, p pattern, m at next level, right associativity).

(* ================================================================== *)
(** ** The device handle ([Opts], [Dev], [New]) *)

Inductive goroutine : Type :=
| Caller
| Worker (n : nat).

(** A channel is known by the order of its [make]; [nil] is [None]. *)
Definition chan : Type := nat.

Record Opts : Type := mkOpts { I2cAddress : Z; Opts_Name : string }.

Definition DefaultOpts : Opts := mkOpts 0x44 "sht4x".

Record Dev : Type := mkDev {
  c_Bus : Bus;              (* c.Bus *)
  c_Addr : Z;               (* c.Addr *)
  measDelay : Z;
  Name : string;
  Serial : Z;
  mu : option goroutine;    (* sync.Mutex: the goroutine holding it *)
  stop : option chan;       (* chan struct{} *)
  wg : nat                  (* sync.WaitGroup counter *)
}.

Definition set_Serial (d : Dev) (n : Z) : Dev :=
  mkDev (c_Bus d) (c_Addr d) (measDelay d) (Name d) n (mu d) (stop d) (wg d).
Definition set_mu (d : Dev) (m : option goroutine) : Dev :=
  mkDev (c_Bus d) (c_Addr d) (measDelay d) (Name d) (Serial d) m (stop d) (wg d).
Definition set_stop (d : Dev) (c : option chan) : Dev :=
  mkDev (c_Bus d) (c_Addr d) (measDelay d) (Name d) (Serial d) (mu d) c (wg d).
Definition set_wg (d : Dev) (n : nat) : Dev :=
  mkDev (c_Bus d) (c_Addr d) (measDelay d) (Name d) (Serial d) (mu d) (stop d) n.

(** The read buffer after a transaction: [rlen] bytes, as many as the
    transport delivered, the rest left at zero. *)
Definition fill (rlen : nat) (bytes : list Z) : list Z :=
  firstn rlen (map uint8 bytes ++ repeat 0 rlen).

(** [d.c.Tx(w, r)]: one addressed transaction; returns the error and the
    contents of [r]. *)
Definition Tx (d : Dev) (w : list Z) (rlen : nat) : IO (option error * list Z) :=
  fun tr =>
    let tr' := tr ++ [EvTx (c_Addr d) w rlen] in
    let reply := c_Bus d tr' in
    ((option_map bus_error (tx_err reply), fill rlen (tx_data reply)), tr').

Definition Sleep (dur : Z) : IO unit := fun tr => (tt, tr ++ [EvSleep dur]).

Definition Printf (err : error) : IO unit := fun tr => (tt, tr ++ [EvPrintf err]).

(** [d.wrap(err)] *)
Definition wrap (d : Dev) (err : error) : error := wrap_error (Name d) err.

(** [func (d *Dev) parseTemperature(e *physic.Env) error]; the pair
    returned is the environment [e] points to afterwards and the error.
    [decodeMeasurement] is the part of the function after the read. *)
Definition decodeMeasurement (e : physic.Env) (data : list Z)
  : physic.Env * option error :=
  let tTicks := readUint (nth 0 data 0) (nth 1 data 0) in
  match verifyChecksum (firstn 3 data) with
  | Some er => (e, Some er)
  | None =>
      let rhTicks := readUint (nth 3 data 0) (nth 4 data 0) in
      match verifyChecksum (skipn 3 data) with
      | Some er => (e, Some er)
      | None =>
          let temp := ticksToTemperature tTicks in
          let rh := ticksToHumidity rhTicks in
          (physic.mkEnv (envTemperature temp) (physic.Pressure e)
             (envHumidity rh), None)
      end
  end.

Definition parseTemperature (d : Dev) (e : physic.Env)
  : IO (physic.Env * option error) :=
  ' (err, data) <- Tx d [] 6 ;;
  match err with
  | Some er => ret (e, Some er)
  | None => ret (decodeMeasurement e data)
  end.

(** [func (d *Dev) sense(e *physic.Env) error] *)
Definition sense (d : Dev) (e : physic.Env) : IO (physic.Env * option error) :=
  ' (err, _) <- Tx d [commandMeasureHighPrecision] 0 ;;
  match err with
  | Some er => ret (e, Some er)
  | None => _ <- Sleep (10 * Millisecond) ;; parseTemperature d e
  end.

(** [func (d *Dev) GetSerial() (uint32, error)] *)
Definition GetSerial (d : Dev) : IO (Z * option error) :=
  ' (err, _) <- Tx d [commandReadSerialNumber] 0 ;;
  match err with
  | Some er => ret (0, Some er)
  | None =>
      _ <- Sleep (1 * Millisecond) ;;
      ' (err, data) <- Tx d [] 6 ;;
      match err with
      | Some er => ret (0, Some er)
      | None =>
          match verifyChecksum (firstn 3 data) with
          | Some er => ret (0, Some er)
          | None =>
              match verifyChecksum (skipn 3 data) with
              | Some er => ret (0, Some er)
              | None =>
                  let serial :=
                    Z.lor (Z.lor (Z.lor (uint32 (Z.shiftl (nth 0 data 0) 24))
                                        (uint32 (Z.shiftl (nth 1 data 0) 16)))
                                 (uint32 (Z.shiftl (nth 3 data 0) 8)))
                          (nth 4 data 0) in
                  ret (serial, None)
              end
          end
      end
  end.

(** [func (d *Dev) Reset() error] *)
Definition Reset (d : Dev) : IO (option error) :=
  ' (err, _) <- Tx d [commandSoftReset] 0 ;;
  _ <- Sleep (1 * Millisecond) ;;
  ret err.

(** [func New(b i2c.Bus, opts *Opts)], returning the handle and the error *)
Definition New (b : Bus) (opts : option Opts) : IO (option Dev * option error) :=
  let opts := match opts with None => DefaultOpts | Some o => o end in
  let d := mkDev b (uint16 (I2cAddress opts)) (10 * Millisecond) (Opts_Name opts)
                 0 None None 0 in
  err <- Reset d ;;
  match err with
  | Some er => ret (None, Some er)
  | None =>
      ' (serial, err) <- GetSerial d ;;
      match err with
      | Some er => ret (None, Some er)
      | None => ret (Some (set_Serial d serial), None)
      end
  end.

(** The [switch mode] of [ActivateHeater]: the command byte and the time
    slept after sending it, or [None] in the [default] case. *)
Definition heaterSwitch (mode : Z) : option (Z * Z) :=
  let interval := 110 * Millisecond in
  let long := 1100 * Millisecond in
  if mode =? HeaterLow then Some (commandHeaterLow100ms, interval)
  else if mode =? HeaterLowLong then Some (commandHeaterLow1s, long)
  else if mode =? HeaterMedium then Some (commandHeaterMedium100ms, interval)
  else if mode =? HeaterMediumLong then Some (commandHeaterMedium1s, long)
  else if mode =? HeaterHigh then Some (commandHeaterHigh100ms, interval)
  else if mode =? HeaterHighLong then Some (commandHeaterHigh1s, long)
  else None.

(** The body of [ActivateHeater] between [d.mu.Lock()] and the deferred
    [d.mu.Unlock()]. *)
Definition ActivateHeater_locked (d : Dev) (mode : Z)
  : IO (physic.Env * option error) :=
  let e := physic.zero in
  match heaterSwitch mode with
  | None => ret (e, Some InvalidModeError)
  | Some (cmd, interval) =>
      ' (err, _) <- Tx d [cmd] 0 ;;
      match err with
      | Some er => ret (e, Some er)
      | None => _ <- Sleep interval ;; parseTemperature d e
      end
  end.

(** The body of [Sense] between [d.mu.Lock()] and the deferred unlock. *)
Definition Sense_locked (d : Dev) (e : physic.Env)
  : IO (physic.Env * option error) :=
  match stop d with
  | Some _ => ret (e, Some (wrap d (errors_New "already sensing continuously")))
  | None => sense d e
  end.

(* ================================================================== *)
(** ** The handle under concurrency

    [Sense], [SenseContinuous], [Halt] and [ActivateHeater] take [d.mu];
    [SenseContinuous] starts a goroutine running [sensingContinuous].  The
    system is the handle, the trace, the channels made so far, the worker
    goroutines and the frame of the one goroutine that calls the public
    methods.  A step is atomic where the code holds [d.mu] without
    waiting; the two places a method can wait, [d.mu.Lock()] and
    [d.wg.Wait()], are states of their own. *)

(** Where a worker goroutine stands in [sensingContinuous]. *)
Inductive wpc : Type :=
| WStart                      (* spawned; the [go func()] body has not run yet *)
| WLock                       (* top of the loop, at [d.mu.Lock()] *)
| WSense                      (* holds [d.mu], before [d.sense(&e)] *)
| WDeliver (e : physic.Env)   (* at [select { case sensing <- e: case <-stop: }] *)
| WTick                       (* at [select { case <-stop: case <-t.C: }] *)
| WDone.                      (* returned: [close(sensing)], [d.wg.Done()] ran *)

Record worker : Type := mkWorker {
  w_pc : wpc;
  w_interval : Z;             (* the ticker's period *)
  w_sensing : chan;
  w_stop : option chan        (* the [stop] argument; read from [d.stop] at start *)
}.

Inductive call : Type :=
| CSense (e : physic.Env)
| CSenseContinuous (interval : Z)
| CHalt
| CActivateHeater (mode : Z).

Inductive result : Type :=
| RSense (e : physic.Env) (err : option error)
| RSenseContinuous (sensing : option chan) (err : option error)
| RHalt (err : option error)
| RActivateHeater (e : physic.Env) (err : option error).

(** The two methods that call [d.wg.Wait()] while holding [d.mu]. *)
Inductive waiter : Type :=
| WaitHalt
| WaitSenseContinuous (interval : Z).

Inductive frame : Type :=
| Idle
| AtLock (c : call)           (* in [d.mu.Lock()] of method [c] *)
| AtWait (w : waiter)         (* holds [d.mu], in [d.wg.Wait()] *)
| Done (r : result).          (* the method returned [r] *)

Record Sys : Type := mkSys {
  dev : Dev;
  trace : list event;
  closed : list chan;                      (* channels closed so far *)
  nchan : chan;                            (* next channel to be made *)
  workers : list worker;
  delivered : list (chan * physic.Env);    (* values sent on [sensing] channels *)
  main : frame
}.

Definition set_main (s : Sys) (f : frame) : Sys :=
  mkSys (dev s) (trace s) (closed s) (nchan s) (workers s) (delivered s) f.

(** The state right after a successful [New]. *)
Definition boot (d : Dev) (tr : list event) : Sys := mkSys d tr [] 0%nat [] [] Idle.

(** The caller enters method [c]. *)
Definition invoke (c : call) (s : Sys) : Sys := set_main s (AtLock c).

Definition idle (f : frame) : bool :=
  match f with Idle | Done _ => true | AtLock _ | AtWait _ => false end.

(** The method returns [r], the trace now being [tr]; [d.mu] is free again. *)
Definition returns (s : Sys) (tr : list event) (r : result) : Sys :=
  mkSys (dev s) tr (closed s) (nchan s) (workers s) (delivered s) (Done r).

(** [SenseContinuous], from [sensing := make(chan physic.Env)] to the
    return: two channels are made, the counter is incremented, the
    goroutine is spawned, the deferred unlock runs. *)
Definition spawn (interval : Z) (s : Sys) : Sys :=
  let sensing := nchan s in
  let stopc := S (nchan s) in
  let d := set_wg (set_stop (dev s) (Some stopc)) (S (wg (dev s))) in
  mkSys (set_mu d None) (trace s) (closed s) (S (S (nchan s)))
        (workers s ++ [mkWorker WStart interval sensing None])
        (delivered s) (Done (RSenseContinuous (Some sensing) None)).

(** [close(d.stop); d.stop = nil], then on to [d.wg.Wait()], the lock held. *)
Definition cancel (c : chan) (w : waiter) (s : Sys) : Sys :=
  mkSys (set_mu (set_stop (dev s) None) (Some Caller)) (trace s)
        (c :: closed s) (nchan s) (workers s) (delivered s) (AtWait w).

(** Method [c] from the moment it holds [d.mu] up to its return or its
    [d.wg.Wait()]. *)
Definition enter (c : call) (s : Sys) : Sys :=
  match c with
  | CSense e =>
      let '((e', err), tr') := Sense_locked (dev s) e (trace s) in
      returns s tr' (RSense e' err)
  | CActivateHeater mode =>
      let '((e', err), tr') := ActivateHeater_locked (dev s) mode (trace s) in
      returns s tr' (RActivateHeater e' err)
  | CHalt =>
      match stop (dev s) with
      | None => returns s (trace s) (RHalt None)
      | Some c => cancel c WaitHalt s
      end
  | CSenseContinuous interval =>
      match stop (dev s) with
      | None => spawn interval s
      | Some c => cancel c (WaitSenseContinuous interval) s
      end
  end.

(** A method continues after [d.wg.Wait()] returned. *)
Definition resume (w : waiter) (s : Sys) : Sys :=
  match w with
  | WaitHalt =>
      mkSys (set_mu (dev s) None) (trace s) (closed s) (nchan s) (workers s)
            (delivered s) (Done (RHalt None))
  | WaitSenseContinuous interval => spawn interval s
  end.

(** One step of the calling goroutine; [None] when it cannot move: it is
    blocked in [Lock] while the mutex is held, blocked in [Wait] while the
    counter is not zero, or not inside a method. *)
Definition caller_step (s : Sys) : option Sys :=
  match main s with
  | AtLock c =>
      match mu (dev s) with
      | None => Some (enter c s)
      | Some _ => None
      end
  | AtWait w =>
      match wg (dev s) with
      | O => Some (resume w s)
      | S _ => None
      end
  | Idle | Done _ => None
  end.

Fixpoint set_nth {A} (n : nat) (x : A) (l : list A) : list A :=
  match l, n with
  | [], _ => []
  | _ :: rest, O => x :: rest
  | y :: rest, S n' => y :: set_nth n' x rest
  end.

Definition set_pc (w : worker) (pc : wpc) : worker :=
  mkWorker pc (w_interval w) (w_sensing w) (w_stop w).

(** Receiving from a closed channel succeeds; from a [nil] channel or one
    still open (nobody ever sends on [stop]) it blocks. *)
Definition stop_ready (c : option chan) (cl : list chan) : bool :=
  match c with
  | Some c => existsb (Nat.eqb c) cl
  | None => false
  end.

(** The worker returns: the deferred [close(sensing)] and [d.wg.Done()]. *)
Definition worker_exit (i : nat) (w : worker) (d : Dev) (tr : list event) (s : Sys)
  : Sys :=
  mkSys (set_wg d (pred (wg d))) tr (w_sensing w :: closed s) (nchan s)
        (set_nth i (set_pc w WDone) (workers s)) (delivered s) (main s).

(** Which case a [select] with two ready cases takes. *)
Inductive choice : Type :=
| TakeStop     (* [<-stop] *)
| TakeOther.   (* the send on [sensing], or [<-t.C] *)

(** One step of worker [i]; [None] when it cannot move. *)
Definition worker_step (ch : choice) (i : nat) (s : Sys) : option Sys :=
  match nth_error (workers s) i with
  | None => None
  | Some w =>
      let d := dev s in
      match w_pc w with
      | WStart =>
          (* the argument [d.stop] is read; the interval is floored *)
          let interval :=
            if w_interval w <? measDelay d then measDelay d else w_interval w in
          Some (mkSys d (trace s) (closed s) (nchan s)
                  (set_nth i (mkWorker WLock interval (w_sensing w) (stop d))
                           (workers s))
                  (delivered s) (main s))
      | WLock =>
          match mu d with
          | Some _ => None
          | None =>
              Some (mkSys (set_mu d (Some (Worker i))) (trace s) (closed s)
                      (nchan s) (set_nth i (set_pc w WSense) (workers s))
                      (delivered s) (main s))
          end
      | WSense =>
          let '((e, err), tr') := sense d physic.zero (trace s) in
          match err with
          | Some er =>
              Some (worker_exit i w (set_mu d None) (tr' ++ [EvPrintf er]) s)
          | None =>
              Some (mkSys (set_mu d None) tr' (closed s) (nchan s)
                      (set_nth i (set_pc w (WDeliver e)) (workers s))
                      (delivered s) (main s))
          end
      | WDeliver e =>
          match ch with
          | TakeStop =>
              if stop_ready (w_stop w) (closed s)
              then Some (worker_exit i w d (trace s) s) else None
          | TakeOther =>
              Some (mkSys d (trace s) (closed s) (nchan s)
                      (set_nth i (set_pc w WTick) (workers s))
                      (delivered s ++ [(w_sensing w, e)]) (main s))
          end
      | WTick =>
          match ch with
          | TakeStop =>
              if stop_ready (w_stop w) (closed s)
              then Some (worker_exit i w d (trace s) s) else None
          | TakeOther =>
              Some (mkSys d (trace s) (closed s) (nchan s)
                      (set_nth i (set_pc w WLock) (workers s))
                      (delivered s) (main s))
          end
      | WDone => None
      end
  end.

Inductive step : Sys -> Sys -> Prop :=
| step_caller s s' : caller_step s = Some s' -> step s s'
| step_worker ch i s s' : worker_step ch i s = Some s' -> step s s'.

(** The states of a handle made by [New] and used by one calling
    goroutine, which enters a method only after the previous one
    returned. *)
Inductive reachable : Sys -> Prop :=
| reach_boot b opts d tr :
    New b opts [] = ((Some d, None), tr) -> reachable (boot d tr)
| reach_call s c :
    reachable s -> idle (main s) = true -> reachable (invoke c s)
| reach_step s s' :
    reachable s -> step s s' -> reachable s'.

(** Schedules: a run of the system is a list of actions, each the caller
    entering a method, a step of the caller, or a step of a worker with
    the case its [select] takes. *)
Inductive action : Type :=
| ACall (c : call)
| ACaller
| AWorker (ch : choice) (i : nat).

Definition act (a : action) (s : Sys) : option Sys :=
  match a with
  | ACall c => if idle (main s) then Some (invoke c s) else None
  | ACaller => caller_step s
  | AWorker ch i => worker_step ch i s
  end.

Fixpoint run (schedule : list action) (s : Sys) : option Sys :=
  match schedule with
  | [] => Some s
  | a :: rest =>
      match act a s with
      | Some s' => run rest s'
      | None => None
      end
  end.

(** A method is in progress and no goroutine can move. *)
Definition deadlocked (s : Sys) : Prop :=
  idle (main s) = false /\ forall s', ~ step s s'.


(* ================================================================== *)
(** ** The heater activation as the specification words it

    Section 4.4: send the mode's command byte, block for the mode's hold
    duration (100 ms for the short variants, 1.1 s for the long ones),
    then perform a measurement read as in section 4.3: send the
    measurement opcode, wait 10 ms, read 6 bytes. *)
Module HeaterSpec.

Definition command (mode : Z) : Z :=
  nth (Z.to_nat mode)
      [commandHeaterLow100ms; commandHeaterLow1s;
       commandHeaterMedium100ms; commandHeaterMedium1s;
       commandHeaterHigh100ms; commandHeaterHigh1s] 0.

(** The long variants are the odd modes. *)
Definition hold (mode : Z) : Z :=
  if Z.even mode then 100 * Millisecond else 1100 * Millisecond.

Definition bus_sequence (addr mode : Z) : list event :=
  [EvTx addr [command mode] 0; EvSleep (hold mode);
   EvTx addr [commandMeasureHighPrecision] 0; EvSleep (10 * Millisecond);
   EvTx addr [] 6].

End HeaterSpec.

(* ================================================================== *)
(** ** A mock transport

    A sensor that answers every read with the same six bytes, two valid
    checksum blocks: 0x1234 and 0x5678. *)
Module Fixture.

Definition reply : TxReply :=
  mkReply None [0x12; 0x34; checksum [0x12; 0x34];
                0x56; 0x78; checksum [0x56; 0x78]].

Definition bus : Bus := fun _ => reply.

(** The handle and the trace [New(bus, nil)] yields. *)
Definition d0 : Dev :=
  mkDev bus 0x44 (10 * Millisecond) "sht4x" 0x12345678 None None 0.

Definition boot_trace : list event :=
  [EvTx 0x44 [commandSoftReset] 0; EvSleep (1 * Millisecond);
   EvTx 0x44 [commandReadSerialNumber] 0; EvSleep (1 * Millisecond);
   EvTx 0x44 [] 6].

Definition s0 : Sys := boot d0 boot_trace.

Definition Second : Z := 1000 * Millisecond.

(** [SenseContinuous] has returned and its worker, having started, has
    taken the lock for its first measurement. *)
Definition worker_measuring : list action :=
  [ACall (CSenseContinuous Second); ACaller;
   AWorker TakeOther 0; AWorker TakeOther 0].

(** [SenseContinuous] has returned, its worker has started and stands
    before [d.mu.Lock()]; [SenseContinuous] is called again, takes the
    lock first, cancels the worker and waits for it. *)
Definition restart_before_worker_locks : list action :=
  [ACall (CSenseContinuous Second); ACaller;
   AWorker TakeOther 0;
   ACall (CSenseContinuous Second); ACaller].

(** The worker has measured once, delivered its sample and waits for the
    next tick; [SenseContinuous] is called again, cancels it, the worker
    sees the closed channel and returns, and the call completes. *)
Definition restart_while_worker_waits : list action :=
  [ACall (CSenseContinuous Second); ACaller;
   AWorker TakeOther 0; AWorker TakeOther 0; AWorker TakeOther 0;
   AWorker TakeOther 0;
   ACall (CSenseContinuous Second); ACaller;
   AWorker TakeStop 0; ACaller].

End Fixture.

(* ================================================================== *)
(** ** Checks over all tick values and all byte pairs *)

(** The temperature [parseTemperature] stores for a tick value. *)
Definition storedTemperature (tTicks : Z) : Z :=
  envTemperature (ticksToTemperature tTicks).

(** The relative humidity [parseTemperature] stores for a tick value. *)
Definition storedHumidity (rhTicks : Z) : Z :=
  envHumidity (ticksToHumidity rhTicks).

(** The stored temperature lies between -45 and 130 degrees Celsius, is a
    whole number of milli-Kelvin, and the next tick value gives a strictly
    higher one. *)
Definition temperature_step_ok (t : Z) : bool :=
  let v := storedTemperature t in
  (-45 * physic.Celsius + physic.ZeroCelsius <=? v)
  && (v <=? 130 * physic.Celsius + physic.ZeroCelsius)
  && (v mod physic.MilliKelvin =? 0)
  && ((t =? 65535) || (v <? storedTemperature (t + 1))).

(** The next tick value never gives a lower stored humidity. *)
Definition humidity_step_ok (t : Z) : bool :=
  (t =? 65535) || (storedHumidity t <=? storedHumidity (t + 1)).

Definition readUint_ok (msb lsb : Z) : bool :=
  let r := readUint msb lsb in
  (r =? 256 * msb + lsb) && (r / 256 =? msb) && (r mod 256 =? lsb).

Definition in_range (e : physic.Env) : Prop :=
  (-45 * physic.Celsius + physic.ZeroCelsius <= physic.Temperature e
   <= 130 * physic.Celsius + physic.ZeroCelsius) /\
  0 <= physic.Humidity e <= 100 * physic.PercentRH.

Definition all_or_nothing (e : physic.Env) (r : physic.Env * option error) : Prop :=
  match r with
  | (e', Some _) => e' = e
  | (e', None) => physic.Pressure e' = physic.Pressure e /\ in_range e'
  end.

(** The errors the driver hands out, besides the two guards of [Sense]
    and [ActivateHeater]: a transport error or the checksum error. *)
Definition read_error (err : option error) : Prop :=
  err = None \/ (exists msg, err = Some (bus_error msg)) \/ err = Some ChecksumError.

(** A worker that has not returned yet. *)
Definition live (w : worker) : bool :=
  match w_pc w with
  | WDone => false
  | _ => true
  end.

Fixpoint count_live (ws : list worker) : nat :=
  match ws with
  | [] => O
  | w :: rest => ((if live w then 1 else 0) + count_live rest)%nat
  end.

(** Case analysis of one step of a worker / of the caller. *)
Ltac worker_cases H :=
  unfold worker_step in H;
  let w := fresh "w" in
  let Hnth := fresh "Hnth" in
  let Hpc := fresh "Hpc" in
  destruct (nth_error (workers _) _) as [w|] eqn:Hnth; [|discriminate];
  destruct (w_pc w) eqn:Hpc;
  [ injection H as <-
  | let Hmu := fresh "Hmu" in
    destruct (mu (dev _)) eqn:Hmu; [discriminate|]; injection H as <-
  | let Hsense := fresh "Hsense" in
    let e := fresh "e" in let err := fresh "err" in let tr' := fresh "tr'" in
    destruct (sense _ _ _) as [[e err] tr'] eqn:Hsense;
    destruct err; injection H as <-
  | let Hready := fresh "Hready" in
    match type of H with
    | context [match ?c with TakeStop => _ | TakeOther => _ end] => destruct c
    end;
    [destruct (stop_ready _ _) eqn:Hready; [|discriminate]|]; injection H as <-
  | let Hready := fresh "Hready" in
    match type of H with
    | context [match ?c with TakeStop => _ | TakeOther => _ end] => destruct c
    end;
    [destruct (stop_ready _ _) eqn:Hready; [|discriminate]|]; injection H as <-
  | discriminate ].

(** The counting invariant: the wait group counts the live workers, there
    is at most one, and outside [d.wg.Wait()] a clear sampling flag means
    no live worker. *)
Definition counting (s : Sys) : Prop :=
  wg (dev s) = count_live (workers s) /\
  (wg (dev s) <= 1)%nat /\
  (forall w, main s = AtWait w -> stop (dev s) = None) /\
  ((forall w, main s <> AtWait w) -> stop (dev s) = None -> wg (dev s) = O).

(** The lock invariant: who holds [d.mu].  A worker is in its measurement
    exactly when it holds the lock, and the caller holds it across steps
    exactly when it waits in [d.wg.Wait()]. *)
Definition holding (s : Sys) : Prop :=
  (forall i wk, nth_error (workers s) i = Some wk -> w_pc wk = WSense ->
                mu (dev s) = Some (Worker i)) /\
  (forall w, main s = AtWait w -> mu (dev s) = Some Caller) /\
  (mu (dev s) = Some Caller -> exists w, main s = AtWait w) /\
  (forall i, mu (dev s) = Some (Worker i) ->
             exists wk, nth_error (workers s) i = Some wk /\ w_pc wk = WSense).

(** Any number of steps. *)
Inductive steps : Sys -> Sys -> Prop :=
| steps_refl s : steps s s
| steps_step s s1 s2 : step s s1 -> steps s1 s2 -> steps s s2.

(** The caller waits in [d.wg.Wait()] and worker [i] stands before
    [d.mu.Lock()]. *)
Definition stuck_at_lock (w : waiter) (i : nat) (s : Sys) : Prop :=
  main s = AtWait w /\
  exists wk, nth_error (workers s) i = Some wk /\ w_pc wk = WLock.

(** [Halt] called right after the worker has started. *)
Definition halt_before_worker_locks : list action :=
  [ACall (CSenseContinuous Fixture.Second); ACaller;
   AWorker TakeOther 0;
   ACall CHalt; ACaller].

(** Invariants of the workers: a worker that returned has closed its
    channel, and a worker past its start has a ticker period of at least
    the measurement delay. *)
Definition workers_ok (s : Sys) : Prop :=
  measDelay (dev s) = 10 * Millisecond /\
  forall i wk, nth_error (workers s) i = Some wk ->
    (w_pc wk = WDone -> In (w_sensing wk) (closed s)) /\
    (w_pc wk <> WStart -> 10 * Millisecond <= w_interval wk).

(** [SenseContinuous], a measurement, a delivery, then [Halt] while the
    worker waits for its tick; the worker sees the closed channel. *)
Definition sample_then_halt : list action :=
  [ACall (CSenseContinuous Fixture.Second); ACaller;
   AWorker TakeOther 0; AWorker TakeOther 0; AWorker TakeOther 0;
   AWorker TakeOther 0;
   ACall CHalt; ACaller; AWorker TakeStop 0].

(** A sample of the worker: a successful measurement into the zero
    environment. *)
Definition sample_ok (e : physic.Env) : Prop :=
  in_range e /\ physic.Pressure e = 0.

Definition samples_ok (s : Sys) : Prop :=
  (forall c e, In (c, e) (delivered s) ->
     sample_ok e /\ exists i wk, nth_error (workers s) i = Some wk /\ w_sensing wk = c) /\
  (forall i wk e, nth_error (workers s) i = Some wk -> w_pc wk = WDeliver e ->
     sample_ok e).

Inductive heatCycle_error : Type :=
| HeaterActivationFailed (err : error)  (* "heater activation failed: %w" *)
| TemperatureDidNotIncrease             (* "temperature did not increase ..." *)
| SenseFailed (err : error).            (* the error of [dev.Sense] as it is *)

Definition World : Type := (list event * list float)%type.

Definition liftIO {A} (m : IO A) (w : World) : A * World :=
  let (a, tr') := m (fst w) in (a, (tr', snd w)).

Definition Second : Z := 1000 * Millisecond.

(** [0 <= z]: [float64(z)] for an [int64]; exact below 2^53. *)
Definition float64_of_int64 (z : Z) : float :=
  if z <? 0 then (- PrimFloat.of_uint63 (Uint63.of_Z (- z)))%float
  else PrimFloat.of_uint63 (Uint63.of_Z z).

(** [physic.Temperature.Celsius] as the library defines it:
    [float64(t-ZeroCelsius) / float64(Celsius)]. *)
Definition physic_Celsius (t : Z) : float :=
  (float64_of_int64 (int64 (t - physic.ZeroCelsius))
   / float64_of_int64 physic.Celsius)%float.

(** The heater opcodes among the writes of a trace. *)
Definition is_heater_command (ev : event) : bool :=
  match ev with
  | EvTx _ [c] _ =>
      existsb (Z.eqb c)
        [commandHeaterHigh1s; commandHeaterHigh100ms; commandHeaterMedium1s;
         commandHeaterMedium100ms; commandHeaterLow1s; commandHeaterLow100ms]
  | _ => false
  end.

Definition heater_commands (tr : list event) : nat :=
  List.length (filter is_heater_command tr).

Section Decontaminate.

(** [e.Temperature.Celsius()], a function of the [physic] library. *)
Variable Celsius : Z -> float.

(** The [for] loop of [heatCycle]. *)
Fixpoint coolDown (fuel : nat) (d : Dev) (e : physic.Env) (w : World)
  : option ((physic.Env * option heatCycle_error) * World) :=
  match fuel with
  | O => None
  | S fuel' =>
      let '((e', err), w') := liftIO (Sense_locked d e) w in
      match err with
      | Some er => Some ((e', Some (SenseFailed er)), w')
      | None =>
          if (Celsius (physic.Temperature e') <? 110)%float
          then Some ((e', None), w')
          else coolDown fuel' d e' w'
      end
  end.

(** [func heatCycle(dev *sht4x.Dev, lowTemp float64) (physic.Env, error)] *)
Definition heatCycle (fuel : nat) (d : Dev) (lowTemp : float) (w : World)
  : option ((physic.Env * option heatCycle_error) * World) :=
  let '((e, err), w1) := liftIO (ActivateHeater_locked d HeaterHighLong) w in
  match err with
  | Some er => Some ((e, Some (HeaterActivationFailed er)), w1)
  | None =>
      if (Celsius (physic.Temperature e) <? lowTemp)%float
      then Some ((e, Some TemperatureDidNotIncrease), w1)
      else if (110 <? Celsius (physic.Temperature e))%float
      then
        let warned := (fst w1, snd w1 ++ [Celsius (physic.Temperature e)]) in
        let slept := (fst warned ++ [EvSleep (10 * Second)], snd warned) in
        coolDown fuel d e slept
      else Some ((e, None), w1)
  end.

End Decontaminate.

(** A sensor that answers 25 degrees Celsius after the heater and in
    every later read: the first byte pair is 0x6666. *)
Definition warm_reply : TxReply :=
  mkReply None [0x66; 0x66; checksum [0x66; 0x66];
                0x80; 0x00; checksum [0x80; 0x00]].

Definition warm_dev : Dev :=
  mkDev (fun _ => warm_reply) 0x44 (10 * Millisecond) "sht4x" 0 None None 0.

(** A sensor that answers 128.6 degrees Celsius (0xFE00) to the read that
    follows the heater command and 25 degrees Celsius to every later
    read. *)
Definition hot_reply : TxReply :=
  mkReply None [0xFE; 0x00; checksum [0xFE; 0x00];
                0x80; 0x00; checksum [0x80; 0x00]].

Definition hot_then_warm_dev : Dev :=
  mkDev (fun tr => if Nat.leb (List.length tr) 3 then hot_reply else warm_reply)
        0x44 (10 * Millisecond) "sht4x" 0 None None 0.

(** What the tool does on that sensor: the heater command and its read,
    the 10 s pause, one measurement; one warning, for 128.6 degrees. *)
Definition hot_then_warm_trace : list event :=
  [EvTx 0x44 [commandHeaterHigh1s] 0; EvSleep (1100 * Millisecond);
   EvTx 0x44 [] 6; EvSleep (10 * Second);
   EvTx 0x44 [commandMeasureHighPrecision] 0; EvSleep (10 * Millisecond);
   EvTx 0x44 [] 6].

Definition hot_then_warm_log : list float :=
  [physic_Celsius (storedTemperature 0xFE00)].

(* ================================================================== *)
(** * Theorems *)

Lemma forall_from_spec (P : Z -> bool) (n : nat) :
  forall lo, forall_from lo n P = true ->
  forall z, lo <= z < lo + Z.of_nat n -> P z = true.
Proof.
  induction n as [|k IH]; intros lo H z Hz.
  - simpl in Hz. lia.
  - cbn [forall_from] in H. apply andb_true_iff in H as [H0 Hk].
    destruct (Z.eq_dec z lo) as [->|Hne]; [exact H0|].
    apply (IH (lo + 1) Hk). lia.
Qed.

Lemma forall_bytes (P : Z -> bool) :
  forall_from 0 256 P = true -> forall z, is_byte z = true -> P z = true.
Proof.
  intros H z Hz. apply (forall_from_spec P 256 0 H).
  unfold is_byte in Hz. apply andb_true_iff in Hz as [H1 H2].
  apply Z.leb_le in H1. apply Z.ltb_lt in H2. simpl. lia.
Qed.

Lemma is_byte_range z : is_byte z = true <-> 0 <= z < 256.
Proof.
  unfold is_byte. rewrite andb_true_iff, Z.leb_le, Z.ltb_lt. tauto.
Qed.

Lemma uint8_is_byte z : is_byte (uint8 z) = true.
Proof.
  apply is_byte_range. unfold uint8. apply Z.mod_pos_bound. lia.
Qed.

(** *** The source loop against the specification's algorithm *)

Lemma land_0x80_testbit crc : negb (Z.land crc 0x80 =? 0) = Z.testbit crc 7.
Proof.
  change 0x80 with (2 ^ 7).
  destruct (Z.testbit crc 7) eqn:Hb.
  - apply negb_true_iff, Z.eqb_neq. intros H0.
    assert (Ht : Z.testbit (Z.land crc (2 ^ 7)) 7 = true).
    { rewrite Z.land_spec, Hb, Z.pow2_bits_true by lia. reflexivity. }
    rewrite H0 in Ht. rewrite Z.bits_0 in Ht. discriminate.
  - apply negb_false_iff, Z.eqb_eq. apply Z.bits_inj'. intros n Hn.
    rewrite Z.land_spec, Z.bits_0.
    destruct (Z.eq_dec n 7) as [->|Hne].
    + rewrite Hb. reflexivity.
    + rewrite (Z.pow2_bits_false 7 n) by lia. apply andb_false_r.
Qed.

Lemma crcShift_round crc : crcShift crc = Crc8Spec.round crc.
Proof.
  unfold crcShift, Crc8Spec.round, Crc8Spec.shift_left, uint8, Crc8Spec.polynomial.
  rewrite land_0x80_testbit, Z.shiftl_mul_pow2 by lia.
  change (2 ^ 1) with 2. rewrite (Z.mul_comm crc 2). reflexivity.
Qed.

Lemma crcBits_iter n : forall crc, crcBits n crc = Nat.iter n Crc8Spec.round crc.
Proof.
  induction n as [|n IH]; intros crc; [reflexivity|].
  cbn [crcBits]. rewrite IH, crcShift_round.
  symmetry. apply Nat.iter_succ_r.
Qed.

Lemma checksumLoop_fold data :
  forall crc, checksumLoop data crc = fold_left Crc8Spec.absorb data crc.
Proof.
  induction data as [|b rest IH]; intros crc; [reflexivity|].
  cbn [checksumLoop fold_left]. rewrite IH. unfold Crc8Spec.absorb.
  rewrite crcBits_iter. reflexivity.
Qed.

Lemma checksum_refines_spec data : checksum data = Crc8Spec.compute data.
Proof. apply checksumLoop_fold. Qed.

(** The datasheet's test vector. *)
Example checksum_BEEF : checksum [0xBE; 0xEF] = 0x92.
Proof. reflexivity. Qed.

(** *** Single-bit errors are detected *)

Lemma lxor_bytes_checked :
  forall_from 0 256 (fun x => forall_from 0 256 (fun y => is_byte (Z.lxor x y)))
  = true.
Proof. vm_compute. reflexivity. Qed.

Lemma lxor_is_byte x y :
  is_byte x = true -> is_byte y = true -> is_byte (Z.lxor x y) = true.
Proof.
  intros Hx Hy.
  exact (forall_bytes _ (forall_bytes _ lxor_bytes_checked x Hx) y Hy).
Qed.

Lemma crcBits8_bytes_checked :
  forall_from 0 256 (fun x => is_byte (crcBits 8 x)) = true.
Proof. vm_compute. reflexivity. Qed.

Lemma crcBits8_is_byte x : is_byte x = true -> is_byte (crcBits 8 x) = true.
Proof. intros Hx. exact (forall_bytes _ crcBits8_bytes_checked x Hx). Qed.

(** The eight-step shift register is one-to-one on bytes. *)
Lemma crcBits8_injective_checked :
  forall_from 0 256 (fun x =>
    forall_from 0 256 (fun y =>
      implb (crcBits 8 x =? crcBits 8 y) (x =? y))) = true.
Proof. vm_cast_no_check (eq_refl true). Qed.

Lemma crcBits8_inj x y :
  is_byte x = true -> is_byte y = true ->
  crcBits 8 x = crcBits 8 y -> x = y.
Proof.
  intros Hx Hy Heq.
  pose proof (forall_bytes _ (forall_bytes _ crcBits8_injective_checked x Hx) y Hy)
    as Hxy.
  cbv beta in Hxy. apply Z.eqb_eq in Heq. rewrite Heq in Hxy.
  cbn [implb] in Hxy. apply Z.eqb_eq. exact Hxy.
Qed.

Lemma lxor_inj_l x a b : Z.lxor x a = Z.lxor x b -> a = b.
Proof.
  intros H. apply (f_equal (Z.lxor x)) in H.
  rewrite <- !Z.lxor_assoc, Z.lxor_nilpotent, !Z.lxor_0_l in H. exact H.
Qed.

Lemma lxor_inj_r x a b : Z.lxor a x = Z.lxor b x -> a = b.
Proof. rewrite !(Z.lxor_comm _ x). apply lxor_inj_l. Qed.

Lemma pow2_is_byte k : 0 <= k < 8 -> is_byte (2 ^ k) = true.
Proof.
  intros Hk. apply is_byte_range. split; [apply Z.pow_nonneg; lia|].
  change 256 with (2 ^ 8). apply Z.pow_lt_mono_r; lia.
Qed.

Lemma flip_changes x k : 0 <= k -> Z.lxor x (2 ^ k) <> x.
Proof.
  intros Hk H. rewrite <- (Z.lxor_0_r x) in H at 2.
  apply lxor_inj_l in H. pose proof (Z.pow_pos_nonneg 2 k). lia.
Qed.

(** Unfolding equations, proved once so that later proofs rewrite with
    them and never unfold the shift register on symbolic bytes. *)
Lemma checksumLoop_cons b rest crc :
  checksumLoop (b :: rest) crc = checksumLoop rest (crcBits 8 (Z.lxor crc b)).
Proof. reflexivity. Qed.

Lemma checksum_pair a b :
  checksum [a; b] = crcBits 8 (Z.lxor (crcBits 8 (Z.lxor 0xFF a)) b).
Proof. unfold checksum. rewrite !checksumLoop_cons. reflexivity. Qed.

(** A change confined to one data byte always changes the checksum. *)
Lemma checksum_first_byte a a' b :
  is_byte a = true -> is_byte a' = true -> is_byte b = true ->
  a' <> a -> checksum [a'; b] <> checksum [a; b].
Proof.
  intros Ha Ha' Hb Hne H. apply Hne. rewrite !checksum_pair in H.
  assert (Hff : is_byte 0xFF = true) by reflexivity.
  apply crcBits8_inj in H;
    try (apply lxor_is_byte; [apply crcBits8_is_byte, lxor_is_byte|]; assumption).
  apply lxor_inj_r in H.
  apply crcBits8_inj in H; try (apply lxor_is_byte; assumption).
  apply lxor_inj_l in H. exact H.
Qed.

Lemma checksum_second_byte a b b' :
  is_byte a = true -> is_byte b = true -> is_byte b' = true ->
  b' <> b -> checksum [a; b'] <> checksum [a; b].
Proof.
  intros Ha Hb Hb' Hne H. apply Hne. rewrite !checksum_pair in H.
  assert (Hff : is_byte 0xFF = true) by reflexivity.
  apply crcBits8_inj in H;
    try (apply lxor_is_byte; [apply crcBits8_is_byte, lxor_is_byte|]; assumption).
  apply lxor_inj_l in H. exact H.
Qed.

Lemma verifyChecksum_block a b c :
  verifyChecksum [a; b; c] =
  if c =? checksum [a; b] then None else Some ChecksumError.
Proof.
  unfold verifyChecksum. cbn [List.length Nat.eqb negb nth firstn].
  destruct (c =? checksum [a; b]); reflexivity.
Qed.

(** C1.  [checksum] is the CRC-8 the specification describes (initial
    accumulator 0xFF, per byte an XOR followed by eight conditional
    shift-and-XOR-0x31 steps).  For every two data bytes, the block made of
    the data followed by its checksum passes [verifyChecksum], and flipping
    any one of the 24 bits of that block makes [verifyChecksum] fail with
    the checksum error. *)
Theorem checksum_crc8_roundtrip (a b : Z) :
  is_byte a = true -> is_byte b = true ->
  (forall data, checksum data = Crc8Spec.compute data) /\
  verifyChecksum ([a; b] ++ [checksum [a; b]]) = None /\
  (forall n, (n < 24)%nat ->
     verifyChecksum (flipBit n ([a; b] ++ [checksum [a; b]])) = Some ChecksumError).
Proof.
  intros Ha Hb. split; [exact checksum_refines_spec|].
  cbn [app]. split.
  - rewrite verifyChecksum_block, Z.eqb_refl. reflexivity.
  - intros n Hn. cbn [flipBit].
    destruct (Nat.ltb n 8) eqn:H1.
    + apply Nat.ltb_lt in H1. rewrite verifyChecksum_block.
      replace (_ =? _) with false; [reflexivity|].
      symmetry. apply Z.eqb_neq. intros H. symmetry in H. revert H.
      apply checksum_first_byte; try assumption.
      * apply lxor_is_byte; [assumption|apply pow2_is_byte; lia].
      * apply flip_changes. lia.
    + apply Nat.ltb_ge in H1. destruct (Nat.ltb (n - 8) 8) eqn:H2.
      * apply Nat.ltb_lt in H2. rewrite verifyChecksum_block.
        replace (_ =? _) with false; [reflexivity|].
        symmetry. apply Z.eqb_neq. intros H. symmetry in H. revert H.
        apply checksum_second_byte; try assumption.
        -- apply lxor_is_byte; [assumption|apply pow2_is_byte; lia].
        -- apply flip_changes. lia.
      * apply Nat.ltb_ge in H2. destruct (Nat.ltb (n - 8 - 8) 8) eqn:H3.
        -- rewrite verifyChecksum_block.
           replace (_ =? _) with false; [reflexivity|].
           symmetry. apply Z.eqb_neq. apply flip_changes. lia.
        -- apply Nat.ltb_ge in H3. lia.
Qed.

Lemma checksum_crc8_roundtrip_witness :
  verifyChecksum [0xBE; 0xEF; 0x92] = None /\
  verifyChecksum (flipBit 13 [0xBE; 0xEF; 0x92]) = Some ChecksumError.
Proof.
  destruct (checksum_crc8_roundtrip 0xBE 0xEF eq_refl eq_refl) as (_ & H1 & H2).
  split; [exact H1|]. apply (H2 13%nat). repeat constructor.
Defined.

(* ================================================================== *)
(** ** Unit converter *)

Lemma forall_uint16 (P : Z -> bool) :
  forall_from 0 (Z.to_nat 65536) P = true ->
  forall z, 0 <= z < 65536 -> P z = true.
Proof.
  intros H z Hz. apply (forall_from_spec P (Z.to_nat 65536) 0 H).
  rewrite Z2Nat.id by lia. lia.
Qed.


Lemma humidity_checked : forall_from 0 (Z.to_nat 65536) humidity_ok = true.
Proof. vm_cast_no_check (eq_refl true). Qed.






(* ================================================================== *)
(** ** Command protocol engine *)

Lemma uint8_small z : is_byte z = true -> uint8 z = z.
Proof. intros H. apply is_byte_range in H. unfold uint8. apply Z.mod_small. lia. Qed.

Lemma fill_six a b c d e f :
  Forall (fun x => is_byte x = true) [a; b; c; d; e; f] ->
  fill 6 [a; b; c; d; e; f] = [a; b; c; d; e; f].
Proof.
  intros H.
  repeat match goal with
         | H : Forall _ (_ :: _) |- _ => inversion H; clear H; subst
         end.
  unfold fill. cbn [map app repeat firstn].
  rewrite !uint8_small by assumption. reflexivity.
Qed.

Lemma app_three {A} (l : list A) a b c :
  ((l ++ [a]) ++ [b]) ++ [c] = l ++ [a; b; c].
Proof. rewrite <- !app_assoc. reflexivity. Qed.

Lemma parseTemperature_eq d e tr :
  parseTemperature d e tr =
  match tx_err (c_Bus d (tr ++ [EvTx (c_Addr d) [] 6])) with
  | Some msg => ((e, Some (bus_error msg)), tr ++ [EvTx (c_Addr d) [] 6])
  | None =>
      (decodeMeasurement e (fill 6 (tx_data (c_Bus d (tr ++ [EvTx (c_Addr d) [] 6])))),
       tr ++ [EvTx (c_Addr d) [] 6])
  end.
Proof.
  cbv [parseTemperature bind ret Tx option_map].
  destruct (tx_err _); reflexivity.
Qed.

Lemma shiftl_byte_uint32 a n :
  is_byte a = true -> 0 <= n <= 24 -> uint32 (Z.shiftl a n) = Z.shiftl a n.
Proof.
  intros Ha Hn. apply is_byte_range in Ha. unfold uint32.
  rewrite Z.shiftl_mul_pow2 by lia. apply Z.mod_small.
  assert (0 < 2 ^ n <= 2 ^ 24)
    by (split; [apply Z.pow_pos_nonneg; lia | apply Z.pow_le_mono_r; lia]).
  change 4294967296 with (256 * 2 ^ 24). nia.
Qed.

(** C5.  When the transport accepts the serial-read command and answers
    the read with six bytes [A, B, crc1, C, D, crc2] whose two blocks pass
    [verifyChecksum], [GetSerial] returns (A<<24)|(B<<16)|(C<<8)|D and no
    error, having sent the opcode, slept 1 ms and read 6 bytes. *)
Theorem GetSerial_assembles (d : Dev) (tr : list event) (A B crc1 C D crc2 : Z) :
  Forall (fun x => is_byte x = true) [A; B; crc1; C; D; crc2] ->
  tx_err (c_Bus d (tr ++ [EvTx (c_Addr d) [commandReadSerialNumber] 0])) = None ->
  c_Bus d (tr ++ [EvTx (c_Addr d) [commandReadSerialNumber] 0;
                  EvSleep (1 * Millisecond); EvTx (c_Addr d) [] 6])
    = mkReply None [A; B; crc1; C; D; crc2] ->
  verifyChecksum [A; B; crc1] = None ->
  verifyChecksum [C; D; crc2] = None ->
  GetSerial d tr =
    ((Z.lor (Z.lor (Z.lor (Z.shiftl A 24) (Z.shiftl B 16)) (Z.shiftl C 8)) D, None),
     tr ++ [EvTx (c_Addr d) [commandReadSerialNumber] 0;
            EvSleep (1 * Millisecond); EvTx (c_Addr d) [] 6]).
Proof.
  intros Hbytes Hw Hr H1 H2.
  cbv [GetSerial bind ret Tx Sleep option_map].
  rewrite Hw, app_three, Hr. cbv [tx_err tx_data].
  rewrite (fill_six _ _ _ _ _ _ Hbytes).
  cbn [firstn skipn nth]. rewrite H1, H2.
  repeat match goal with
         | H : Forall _ (_ :: _) |- _ => inversion H; clear H; subst
         end.
  rewrite !shiftl_byte_uint32 by (assumption || lia). reflexivity.
Qed.

Lemma GetSerial_assembles_witness :
  GetSerial Fixture.d0 [] =
    ((0x12345678, None),
     [EvTx 0x44 [commandReadSerialNumber] 0; EvSleep (1 * Millisecond);
      EvTx 0x44 [] 6]).
Proof.
  apply (GetSerial_assembles Fixture.d0 [] 0x12 0x34 (checksum [0x12; 0x34])
           0x56 0x78 (checksum [0x56; 0x78])); try reflexivity.
  repeat constructor.
Defined.

Lemma Fixture_New : New Fixture.bus None [] = ((Some Fixture.d0, None), Fixture.boot_trace).
Proof. reflexivity. Qed.

(* ================================================================== *)
(** ** Heater state handler *)

Lemma heaterSwitch_valid mode :
  0 <= mode <= 5 ->
  heaterSwitch mode =
    Some (HeaterSpec.command mode,
          if Z.even mode then 110 * Millisecond else 1100 * Millisecond).
Proof.
  intros H.
  assert (Hm : mode = 0 \/ mode = 1 \/ mode = 2 \/ mode = 3 \/ mode = 4 \/ mode = 5)
    by lia.
  destruct Hm as [-> | [-> | [-> | [-> | [-> | ->]]]]]; reflexivity.
Qed.

Lemma heaterSwitch_invalid mode : ~ 0 <= mode <= 5 -> heaterSwitch mode = None.
Proof.
  intros H. unfold heaterSwitch, HeaterLow, HeaterLowLong, HeaterMedium,
    HeaterMediumLong, HeaterHigh, HeaterHighLong. cbv zeta.
  repeat match goal with
         | |- context [?a =? ?b] => destruct (Z.eqb_spec a b); [lia|]
         end.
  reflexivity.
Qed.

Lemma caller_step_unlocked c s :
  mu (dev s) = None -> caller_step (invoke c s) = Some (enter c (invoke c s)).
Proof. intros H. cbv [caller_step invoke set_main main dev]. cbv [dev] in H. rewrite H. reflexivity. Qed.

Lemma caller_step_locked c s :
  mu (dev s) <> None -> caller_step (invoke c s) = None.
Proof.
  intros H. cbv [caller_step invoke set_main main dev]. cbv [dev] in H.
  destruct (mu _); [reflexivity | contradiction].
Qed.

Lemma ActivateHeater_locked_eq d mode cmd hold tr :
  heaterSwitch mode = Some (cmd, hold) ->
  ActivateHeater_locked d mode tr =
  match tx_err (c_Bus d (tr ++ [EvTx (c_Addr d) [cmd] 0])) with
  | Some msg => ((physic.zero, Some (bus_error msg)), tr ++ [EvTx (c_Addr d) [cmd] 0])
  | None =>
      parseTemperature d physic.zero
        ((tr ++ [EvTx (c_Addr d) [cmd] 0]) ++ [EvSleep hold])
  end.
Proof.
  intros H. unfold ActivateHeater_locked. rewrite H.
  cbv [bind ret Tx Sleep option_map].
  destruct (tx_err _); reflexivity.
Qed.

(** C4, as the code has it.  For each of the six heater modes, once
    [ActivateHeater] holds the lock it sends the mode's command byte; if
    the transport accepts it, it sleeps 110 ms (short variants) or 1.1 s
    (long variants) and then reads 6 bytes directly, without sending the
    measurement opcode; the bytes are verified as two checksum blocks and
    converted, and the sample and error of that decoding are returned. *)
Theorem ActivateHeater_sequence (s : Sys) (mode : Z) :
  mu (dev s) = None ->
  0 <= mode <= 5 ->
  let d := dev s in
  let hold := if Z.even mode then 110 * Millisecond else 1100 * Millisecond in
  let sent := trace s ++ [EvTx (c_Addr d) [HeaterSpec.command mode] 0] in
  let read := trace s ++ [EvTx (c_Addr d) [HeaterSpec.command mode] 0;
                          EvSleep hold; EvTx (c_Addr d) [] 6] in
  caller_step (invoke (CActivateHeater mode) s) =
  Some match tx_err (c_Bus d sent) with
       | Some msg =>
           returns s sent (RActivateHeater physic.zero (Some (bus_error msg)))
       | None =>
           match tx_err (c_Bus d read) with
           | Some msg =>
               returns s read (RActivateHeater physic.zero (Some (bus_error msg)))
           | None =>
               let '(e, err) :=
                 decodeMeasurement physic.zero (fill 6 (tx_data (c_Bus d read))) in
               returns s read (RActivateHeater e err)
           end
       end.
Proof.
  intros Hmu Hmode d hold sent read.
  rewrite (caller_step_unlocked _ _ Hmu). f_equal.
  cbv [enter invoke set_main dev trace].
  change (let (dev, _, _, _, _, _, _) := s in dev) with (dev s).
  change (let (_, trace, _, _, _, _, _) := s in trace) with (trace s).
  rewrite (ActivateHeater_locked_eq _ _ _ _ _ (heaterSwitch_valid mode Hmode)).
  fold d hold sent.
  destruct (tx_err (c_Bus d sent)) as [msg|]; [reflexivity|].
  rewrite parseTemperature_eq.
  replace ((sent ++ [EvSleep hold]) ++ [EvTx (c_Addr d) [] 6]) with read
    by (unfold sent, read; rewrite <- !app_assoc; reflexivity).
  destruct (tx_err (c_Bus d read)) as [msg|]; [reflexivity|].
  destruct (decodeMeasurement _ _) as [e err]. reflexivity.
Qed.

Lemma ActivateHeater_sequence_witness :
  caller_step (invoke (CActivateHeater HeaterMediumLong) Fixture.s0) =
  Some (returns Fixture.s0
          (Fixture.boot_trace ++
             [EvTx 0x44 [commandHeaterMedium1s] 0; EvSleep (1100 * Millisecond);
              EvTx 0x44 [] 6])
          (RActivateHeater
             (physic.mkEnv
                (envTemperature (ticksToTemperature 0x1234)) 0
                (envHumidity (ticksToHumidity 0x5678)))
             None)).
Proof.
  exact (ActivateHeater_sequence Fixture.s0 HeaterMediumLong eq_refl
           (conj (Zle_bool_imp_le 0 3 eq_refl) (Zle_bool_imp_le 3 5 eq_refl))).
Defined.

(** C4 as claimed fails: for [HeaterLow] on a transport that accepts
    everything, the driver sleeps 110 ms, not 100 ms, and reads the six
    bytes without sending the measurement opcode and its 10 ms wait. *)
Lemma ActivateHeater_not_spec_sequence :
  exists s' e,
    caller_step (invoke (CActivateHeater HeaterLow) (boot Fixture.d0 [])) = Some s' /\
    main s' = Done (RActivateHeater e None) /\
    trace s' = [EvTx 0x44 [commandHeaterLow100ms] 0; EvSleep (110 * Millisecond);
                EvTx 0x44 [] 6] /\
    trace s' <> HeaterSpec.bus_sequence 0x44 HeaterLow.
Proof.
  eexists. eexists. split; [vm_compute; reflexivity|].
  split; [reflexivity|]. split; [reflexivity|]. vm_compute. discriminate.
Qed.

(** C7.  For every mode outside the six defined variants, [ActivateHeater]
    (once it holds the lock) returns the invalid-mode error and the zero
    sample; the trace gains no event and the handle and the rest of the
    system are unchanged. *)
Theorem ActivateHeater_invalid_mode (s : Sys) (mode : Z) :
  mu (dev s) = None ->
  ~ 0 <= mode <= 5 ->
  caller_step (invoke (CActivateHeater mode) s) =
    Some (returns s (trace s) (RActivateHeater physic.zero (Some InvalidModeError))).
Proof.
  intros Hmu Hmode.
  rewrite (caller_step_unlocked _ _ Hmu). f_equal.
  cbv [enter invoke set_main dev trace ActivateHeater_locked].
  rewrite (heaterSwitch_invalid mode Hmode). reflexivity.
Qed.

Lemma ActivateHeater_invalid_mode_witness :
  caller_step (invoke (CActivateHeater 6) Fixture.s0) =
    Some (returns Fixture.s0 Fixture.boot_trace
            (RActivateHeater physic.zero (Some InvalidModeError))).
Proof.
  apply (ActivateHeater_invalid_mode Fixture.s0 6); [reflexivity | lia].
Defined.

(* ================================================================== *)
(** ** Locking and the continuous-sampling worker *)

Lemma run_reachable schedule :
  forall s s', reachable s -> run schedule s = Some s' -> reachable s'.
Proof.
  induction schedule as [|a rest IH]; intros s s' Hs Hrun.
  - cbn in Hrun. injection Hrun as <-. exact Hs.
  - cbn [run] in Hrun. destruct (act a s) as [s1|] eqn:Ha; [|discriminate].
    apply (IH s1 s'); [|exact Hrun].
    destruct a as [c| |ch i]; cbn [act] in Ha.
    + destruct (idle (main s)) eqn:Hi; [|discriminate].
      injection Ha as <-. apply reach_call; assumption.
    + eapply reach_step; [exact Hs | apply step_caller; exact Ha].
    + eapply reach_step; [exact Hs | eapply step_worker; exact Ha].
Qed.

Lemma Fixture_reachable : reachable Fixture.s0.
Proof. exact (reach_boot _ _ _ _ Fixture_New). Qed.

Lemma Sense_locked_sampling d e tr c :
  stop d = Some c ->
  Sense_locked d e tr = ((e, Some (AlreadySensingError (Name d))), tr).
Proof. intros H. unfold Sense_locked. rewrite H. reflexivity. Qed.

Lemma Sense_unlocked_sampling s e :
  mu (dev s) = None -> stop (dev s) <> None ->
  caller_step (invoke (CSense e) s) =
    Some (returns s (trace s)
            (RSense e (Some (AlreadySensingError (Name (dev s)))))).
Proof.
  intros Hmu Hstop. rewrite (caller_step_unlocked _ _ Hmu). f_equal.
  destruct (stop (dev s)) as [c|] eqn:Hc; [|contradiction].
  cbv [enter invoke set_main dev trace].
  change (let (dev, _, _, _, _, _, _) := s in dev) with (dev s).
  change (let (_, trace, _, _, _, _, _) := s in trace) with (trace s).
  rewrite (Sense_locked_sampling _ _ _ _ Hc). reflexivity.
Qed.

(** C6, as the code has it.  With a continuous-sampling worker active,
    [Sense] first takes the shared lock, so it waits for as long as another
    goroutine (the worker in its measurement cycle) holds it; once it has
    the lock it returns the already-sensing error, the trace gains no
    event and nothing else changes. *)
Theorem Sense_while_sampling (s : Sys) (e : physic.Env) :
  stop (dev s) <> None ->
  (mu (dev s) <> None -> caller_step (invoke (CSense e) s) = None) /\
  (mu (dev s) = None ->
   caller_step (invoke (CSense e) s) =
     Some (returns s (trace s)
             (RSense e (Some (AlreadySensingError (Name (dev s))))))).
Proof.
  intros Hstop. split.
  - apply caller_step_locked.
  - intros Hmu. apply Sense_unlocked_sampling; assumption.
Qed.

Lemma Sense_while_sampling_witness :
  exists s,
    run [ACall (CSenseContinuous Fixture.Second); ACaller] Fixture.s0 = Some s /\
    caller_step (invoke (CSense physic.zero) s) =
      Some (returns s (trace s)
              (RSense physic.zero (Some (AlreadySensingError "sht4x")))).
Proof.
  eexists. split; [vm_compute; reflexivity|].
  apply Sense_while_sampling; [discriminate | reflexivity].
Defined.

(** C6 as claimed fails: while the worker holds the lock for its
    measurement, the sampling flag is set and [Sense] cannot return: it is
    blocked in [d.mu.Lock()]. *)
Lemma Sense_blocks_on_lock :
  exists s,
    run Fixture.worker_measuring Fixture.s0 = Some s /\
    reachable s /\
    idle (main s) = true /\
    stop (dev s) <> None /\
    caller_step (invoke (CSense physic.zero) s) = None.
Proof.
  eexists. split; [vm_compute; reflexivity|].
  split; [apply (run_reachable Fixture.worker_measuring _ _ Fixture_reachable);
          vm_compute; reflexivity|].
  split; [reflexivity|]. split; [discriminate | reflexivity].
Qed.









(** *** What the steps preserve *)

Lemma set_mu_stop d m : stop (set_mu d m) = stop d.
Proof. destruct d. reflexivity. Qed.

Lemma set_wg_stop d n : stop (set_wg d n) = stop d.
Proof. destruct d. reflexivity. Qed.

Lemma set_stop_stop d c : stop (set_stop d c) = c.
Proof. destruct d. reflexivity. Qed.

Lemma set_mu_mu d m : mu (set_mu d m) = m.
Proof. destruct d. reflexivity. Qed.

(** A worker never touches the caller's frame nor [d.stop]. *)
Lemma worker_step_frame ch i s s' :
  worker_step ch i s = Some s' ->
  main s' = main s /\ stop (dev s') = stop (dev s).
Proof.
  unfold worker_step. intros H.
  destruct (nth_error (workers s) i) as [w|]; [|discriminate].
  destruct (w_pc w).
  - injection H as <-. split; reflexivity.
  - destruct (mu (dev s)); [discriminate|]. injection H as <-.
    split; [reflexivity | apply set_mu_stop].
  - destruct (sense (dev s) physic.zero (trace s)) as [[e err] tr'].
    destruct err; injection H as <-; (split; [reflexivity|]); cbn [dev worker_exit].
    + rewrite set_wg_stop. apply set_mu_stop.
    + apply set_mu_stop.
  - destruct ch.
    + destruct (stop_ready _ _); [|discriminate]. injection H as <-.
      split; [reflexivity | apply set_wg_stop].
    + injection H as <-. split; reflexivity.
  - destruct ch.
    + destruct (stop_ready _ _); [|discriminate]. injection H as <-.
      split; [reflexivity | apply set_wg_stop].
    + injection H as <-. split; reflexivity.
  - discriminate.
Qed.

Lemma enter_wait c s w :
  main (enter c s) = AtWait w -> stop (dev (enter c s)) = None.
Proof.
  destruct c as [e|interval| |mode]; cbn [enter].
  - destruct (Sense_locked (dev s) e (trace s)) as [[e' err] tr']. discriminate.
  - destruct (stop (dev s)) as [c|]; [|discriminate].
    intros _. cbn [cancel dev]. rewrite set_mu_stop. apply set_stop_stop.
  - destruct (stop (dev s)) as [c|]; [|discriminate].
    intros _. cbn [cancel dev]. rewrite set_mu_stop. apply set_stop_stop.
  - destruct (ActivateHeater_locked (dev s) mode (trace s)) as [[e' err] tr'].
    discriminate.
Qed.

(** While the caller waits in [d.wg.Wait()], [d.stop] is [nil]. *)
Lemma wait_stop_nil s :
  reachable s -> forall w, main s = AtWait w -> stop (dev s) = None.
Proof.
  induction 1 as [b opts d tr Hnew | s c Hs IH Hidle | s s' Hs IH Hstep];
    intros w Hw.
  - discriminate.
  - discriminate.
  - destruct Hstep as [s s' Hc | ch i s s' Hwk].
    + unfold caller_step in Hc. destruct (main s) as [|c|w0|r] eqn:Hm;
        try discriminate.
      * destruct (mu (dev s)); [discriminate|]. injection Hc as <-.
        apply (enter_wait c s w Hw).
      * destruct (wg (dev s)); [|discriminate]. injection Hc as <-.
        destruct w0; discriminate.
    + destruct (worker_step_frame _ _ _ _ Hwk) as [Hm Hst].
      rewrite Hst. apply (IH w). rewrite <- Hm. exact Hw.
Qed.

Lemma returns_same s r : main s = Done r -> returns s (trace s) r = s.
Proof. destruct s. cbn. intros ->. reflexivity. Qed.

(** The state in which [Halt] returns: no error, the flag clear, the lock
    free. *)
Lemma Halt_return s s1 :
  reachable s ->
  main s = AtLock CHalt \/ main s = AtWait WaitHalt ->
  caller_step s = Some s1 ->
  idle (main s1) = true ->
  main s1 = Done (RHalt None) /\ stop (dev s1) = None /\ mu (dev s1) = None.
Proof.
  intros Hs Hm Hc Hidle. unfold caller_step in Hc.
  destruct Hm as [Hm | Hm]; rewrite Hm in Hc.
  - destruct (mu (dev s)) eqn:Hmu; [discriminate|]. injection Hc as <-.
    cbn [enter] in *. destruct (stop (dev s)) eqn:Hst.
    + discriminate.
    + cbn [returns main dev]. auto.
  - destruct (wg (dev s)); [|discriminate]. injection Hc as <-.
    cbn [resume main dev]. rewrite set_mu_stop, set_mu_mu.
    split; [reflexivity|]. split; [|reflexivity].
    apply (wait_stop_nil s Hs WaitHalt Hm).
Qed.

Lemma Halt_noop s :
  mu (dev s) = None -> stop (dev s) = None ->
  caller_step (invoke CHalt s) = Some (returns s (trace s) (RHalt None)).
Proof.
  intros Hmu Hst. rewrite (caller_step_unlocked _ _ Hmu). f_equal.
  destruct s as [d tr cl n ws dl m]. cbn in Hst |- *. rewrite Hst. reflexivity.
Qed.

Lemma New_handle b opts d tr :
  New b opts [] = ((Some d, None), tr) -> mu d = None /\ stop d = None /\ wg d = O.
Proof.
  cbv [New bind ret]. intros H.
  destruct (Reset _ _) as [[er|] tr1]; [discriminate|].
  destruct (GetSerial _ _) as [[serial [er|]] tr2]; [discriminate|].
  injection H as <- <-. repeat split.
Qed.

(** C8.  [Halt] is idempotent.  On a handle fresh from [New], and more
    generally whenever the flag is clear and the lock free, it returns no
    error and changes nothing (handle, trace, channels, workers).  And
    whenever a call of [Halt] has returned, it returned no error and a
    second call right after it returns no error and leaves the whole state
    as the first call left it. *)
Theorem Halt_idempotent :
  (forall b opts d tr,
      New b opts [] = ((Some d, None), tr) ->
      caller_step (invoke CHalt (boot d tr)) =
        Some (returns (boot d tr) tr (RHalt None))) /\
  (forall s,
      mu (dev s) = None -> stop (dev s) = None ->
      caller_step (invoke CHalt s) = Some (returns s (trace s) (RHalt None)) /\
      dev (returns s (trace s) (RHalt None)) = dev s) /\
  (forall s s1,
      reachable s ->
      main s = AtLock CHalt \/ main s = AtWait WaitHalt ->
      caller_step s = Some s1 ->
      idle (main s1) = true ->
      main s1 = Done (RHalt None) /\
      caller_step (invoke CHalt s1) = Some s1).
Proof.
  split; [|split].
  - intros b opts d tr Hnew. destruct (New_handle _ _ _ _ Hnew) as (Hmu & Hst & _).
    apply (Halt_noop (boot d tr)); assumption.
  - intros s Hmu Hst. split; [apply Halt_noop; assumption | reflexivity].
  - intros s s1 Hs Hm Hc Hidle.
    destruct (Halt_return s s1 Hs Hm Hc Hidle) as (Hmain & Hst & Hmu).
    split; [exact Hmain|].
    rewrite (Halt_noop s1 Hmu Hst). f_equal. apply returns_same. exact Hmain.
Qed.

Lemma Halt_idempotent_witness :
  exists s1,
    caller_step (invoke CHalt Fixture.s0) = Some s1 /\
    main s1 = Done (RHalt None) /\
    caller_step (invoke CHalt s1) = Some s1.
Proof.
  eexists. split; [vm_compute; reflexivity|].
  refine (proj2 (proj2 Halt_idempotent) (invoke CHalt Fixture.s0) _ _ _ _ _).
  - apply reach_call; [exact Fixture_reachable | reflexivity].
  - left. reflexivity.
  - vm_compute. reflexivity.
  - reflexivity.
Defined.

(** *** [SenseContinuous] *)

(** Whenever [SenseContinuous] returns, it returns a channel and no
    error: the function has no other return. *)
Lemma SenseContinuous_result s s1 interval r :
  main s = AtLock (CSenseContinuous interval) \/
  main s = AtWait (WaitSenseContinuous interval) ->
  caller_step s = Some s1 ->
  main s1 = Done r ->
  exists ch, r = RSenseContinuous (Some ch) None.
Proof.
  intros Hm Hc Hr. unfold caller_step in Hc.
  destruct Hm as [Hm | Hm]; rewrite Hm in Hc.
  - destruct (mu (dev s)); [discriminate|]. injection Hc as <-.
    cbn [enter] in Hr. destruct (stop (dev s)).
    + discriminate.
    + cbn in Hr. injection Hr as <-. eexists. reflexivity.
  - destruct (wg (dev s)); [|discriminate]. injection Hc as <-.
    cbn in Hr. injection Hr as <-. eexists. reflexivity.
Qed.

(** Restarting while the previous worker is parked at a [select]: the
    worker is cancelled and joined, and the call returns a new channel. *)
Example SenseContinuous_restart_joins :
  exists s,
    run Fixture.restart_while_worker_waits Fixture.s0 = Some s /\
    main s = Done (RSenseContinuous (Some 2%nat) None) /\
    map w_pc (workers s) = [WDone; WStart] /\
    mu (dev s) = None /\ wg (dev s) = 1%nat.
Proof. eexists. split; [vm_compute; reflexivity|]. repeat split. Qed.

(** C9, where the code goes wrong.  [SenseContinuous] is called while the
    worker of an earlier call stands before [d.mu.Lock()] at the top of
    its loop.  The call takes the lock first, closes the stop channel and
    waits in [d.wg.Wait()] with the lock held; the worker waits for the
    lock and never looks at the channel.  No goroutine can move: the call
    never returns. *)
Theorem SenseContinuous_deadlock :
  exists s,
    run Fixture.restart_before_worker_locks Fixture.s0 = Some s /\
    reachable s /\
    main s = AtWait (WaitSenseContinuous Fixture.Second) /\
    mu (dev s) = Some Caller /\ wg (dev s) = 1%nat /\
    map w_pc (workers s) = [WLock] /\
    deadlocked s.
Proof.
  eexists. split; [vm_compute; reflexivity|].
  split; [apply (run_reachable Fixture.restart_before_worker_locks _ _
                   Fixture_reachable); vm_compute; reflexivity|].
  do 4 (split; [reflexivity|]). split; [reflexivity|].
  intros s' Hstep. inversion Hstep as [s0 s1 Hc | ch i s0 s1 Hw]; subst.
  - vm_compute in Hc. discriminate.
  - destruct i as [|i].
    + destruct ch; vm_compute in Hw; discriminate.
    + unfold worker_step in Hw. cbn [workers nth_error] in Hw.
      destruct i; discriminate.
Qed.

(* ================================================================== *)
(** ** Further properties of the checksum unit and the converter *)

(** A block in which exactly one byte was replaced by any other value is
    rejected with the checksum error: the CRC catches every error confined
    to one byte, not only single-bit flips. *)
Theorem verifyChecksum_detects_byte_errors (a b x : Z) :
  is_byte a = true -> is_byte b = true -> is_byte x = true ->
  (x <> a -> verifyChecksum [x; b; checksum [a; b]] = Some ChecksumError) /\
  (x <> b -> verifyChecksum [a; x; checksum [a; b]] = Some ChecksumError) /\
  (x <> checksum [a; b] -> verifyChecksum [a; b; x] = Some ChecksumError).
Proof.
  intros Ha Hb Hx. rewrite !verifyChecksum_block. repeat split; intros Hne.
  - replace (_ =? _) with false; [reflexivity|].
    symmetry. apply Z.eqb_neq. intros H. symmetry in H. revert H.
    apply checksum_first_byte; assumption.
  - replace (_ =? _) with false; [reflexivity|].
    symmetry. apply Z.eqb_neq. intros H. symmetry in H. revert H.
    apply checksum_second_byte; assumption.
  - replace (_ =? _) with false; [reflexivity|].
    symmetry. apply Z.eqb_neq. exact Hne.
Qed.

Lemma verifyChecksum_detects_byte_errors_witness :
  verifyChecksum [0xBE; 0x00; 0x92] = Some ChecksumError.
Proof.
  apply (verifyChecksum_detects_byte_errors 0xBE 0xEF 0x00); try reflexivity.
  discriminate.
Defined.

Lemma readUint_checked :
  forall_from 0 256 (fun msb => forall_from 0 256 (fun lsb => readUint_ok msb lsb))
  = true.
Proof. vm_cast_no_check (eq_refl true). Qed.

(** [readUint] is the big-endian 16-bit number of its two bytes: it equals
    256 * msb + lsb, lies in [0, 65536), and both bytes can be read back
    from it. *)
Theorem readUint_big_endian (msb lsb : Z) :
  is_byte msb = true -> is_byte lsb = true ->
  readUint msb lsb = 256 * msb + lsb /\
  0 <= readUint msb lsb < 65536 /\
  readUint msb lsb / 256 = msb /\
  readUint msb lsb mod 256 = lsb.
Proof.
  intros Hm Hl.
  pose proof (forall_bytes _ (forall_bytes _ readUint_checked msb Hm) lsb Hl) as H.
  cbv beta in H. unfold readUint_ok in H. cbv zeta in H.
  apply andb_true_iff in H as [H H3]. apply andb_true_iff in H as [H1 H2].
  apply Z.eqb_eq in H1, H2, H3.
  apply is_byte_range in Hm, Hl.
  split; [exact H1|]. split; [lia|]. split; assumption.
Qed.

Lemma readUint_big_endian_witness : readUint 0x12 0x34 = 0x1234.
Proof. apply (readUint_big_endian 0x12 0x34); reflexivity. Defined.

Lemma temperature_step_checked :
  forall_from 0 (Z.to_nat 65536) temperature_step_ok = true.
Proof. vm_cast_no_check (eq_refl true). Qed.

Lemma humidity_step_checked :
  forall_from 0 (Z.to_nat 65536) humidity_step_ok = true.
Proof. vm_cast_no_check (eq_refl true). Qed.

Lemma storedTemperature_step t :
  0 <= t < 65536 ->
  (-45 * physic.Celsius + physic.ZeroCelsius <= storedTemperature t
   <= 130 * physic.Celsius + physic.ZeroCelsius) /\
  storedTemperature t mod physic.MilliKelvin = 0 /\
  (t < 65535 -> storedTemperature t < storedTemperature (t + 1)).
Proof.
  intros Ht. pose proof (forall_uint16 _ temperature_step_checked t Ht) as H.
  unfold temperature_step_ok in H. cbv zeta in H.
  apply andb_true_iff in H as [H H4]. apply andb_true_iff in H as [H H3].
  apply andb_true_iff in H as [H1 H2].
  apply Z.leb_le in H1, H2. apply Z.eqb_eq in H3.
  split; [split; assumption|]. split; [exact H3|]. intros Hlt.
  apply orb_true_iff in H4 as [H4 | H4].
  - apply Z.eqb_eq in H4. lia.
  - apply Z.ltb_lt in H4. exact H4.
Qed.

Lemma storedHumidity_step t :
  0 <= t < 65535 -> storedHumidity t <= storedHumidity (t + 1).
Proof.
  intros Ht. assert (Ht' : 0 <= t < 65536) by lia.
  pose proof (forall_uint16 _ humidity_step_checked t Ht') as H.
  unfold humidity_step_ok in H. apply orb_true_iff in H as [H | H].
  - apply Z.eqb_eq in H. lia.
  - apply Z.leb_le in H. exact H.
Qed.

Lemma storedHumidity_range t :
  0 <= t < 65536 -> 0 <= storedHumidity t <= 100 * physic.PercentRH.
Proof.
  intros Ht. pose proof (forall_uint16 _ humidity_checked t Ht) as H.
  unfold humidity_ok in H. cbv zeta in H.
  apply andb_true_iff in H as [_ H]. apply andb_true_iff in H as [H1 H2].
  apply Z.leb_le in H1, H2. unfold storedHumidity. split; assumption.
Qed.

Lemma conversion_monotone_steps (n : nat) :
  forall t, 0 <= t -> t + 1 + Z.of_nat n < 65536 ->
  storedTemperature t < storedTemperature (t + 1 + Z.of_nat n) /\
  storedHumidity t <= storedHumidity (t + 1 + Z.of_nat n).
Proof.
  induction n as [|n IH]; intros t H0 Hhi.
  - cbn [Z.of_nat] in *. rewrite Z.add_0_r in *. split.
    + apply storedTemperature_step; lia.
    + apply storedHumidity_step; lia.
  - rewrite Nat2Z.inj_succ in Hhi |- *.
    destruct (IH t H0) as [IHt IHh]; [lia|].
    replace (t + 1 + Z.succ (Z.of_nat n)) with (t + 1 + Z.of_nat n + 1) by lia.
    split.
    + eapply Z.lt_trans; [exact IHt|]. apply storedTemperature_step; lia.
    + eapply Z.le_trans; [exact IHh|]. apply storedHumidity_step; lia.
Qed.

(** The conversion is monotone in the raw ticks: a higher tick value
    always gives a strictly higher stored temperature and never a lower
    stored humidity (which stays constant only where it is clamped). *)
Theorem conversion_monotone (t1 t2 : Z) :
  0 <= t1 -> t1 < t2 -> t2 < 65536 ->
  storedTemperature t1 < storedTemperature t2 /\
  storedHumidity t1 <= storedHumidity t2.
Proof.
  intros H0 Hlt Hhi.
  replace t2 with (t1 + 1 + Z.of_nat (Z.to_nat (t2 - t1 - 1)))
    by (rewrite Z2Nat.id; lia).
  apply conversion_monotone_steps; [exact H0|]. rewrite Z2Nat.id; lia.
Qed.

Lemma conversion_monotone_witness :
  storedTemperature 1000 < storedTemperature 40000 /\
  storedHumidity 1000 <= storedHumidity 40000.
Proof. apply (conversion_monotone 1000 40000); lia. Defined.

(** *** What a read leaves in [*e] *)

Lemma fill_length n bytes : List.length (fill n bytes) = n.
Proof.
  unfold fill. rewrite length_firstn, length_app, repeat_length. lia.
Qed.

Lemma Forall_take {A} (P : A -> Prop) n :
  forall l, Forall P l -> Forall P (firstn n l).
Proof.
  induction n as [|n IH]; intros l H; [constructor|].
  destruct H as [|x l Hx Hl]; cbn [firstn]; constructor; auto.
Qed.

Lemma fill_bytes n bytes : Forall (fun x => is_byte x = true) (fill n bytes).
Proof.
  unfold fill. apply Forall_take. apply Forall_app. split.
  - apply Forall_forall. intros x Hx. apply in_map_iff in Hx as (y & <- & _).
    apply uint8_is_byte.
  - apply Forall_forall. intros x Hx. apply repeat_spec in Hx. subst. reflexivity.
Qed.

Lemma nth_fill_byte k n bytes : is_byte (nth k (fill n bytes) 0) = true.
Proof.
  destruct (Nat.lt_ge_cases k (List.length (fill n bytes))) as [Hk | Hk].
  - pose proof (fill_bytes n bytes) as H. rewrite Forall_forall in H.
    apply H. apply nth_In. exact Hk.
  - rewrite nth_overflow by exact Hk. reflexivity.
Qed.

Lemma readUint_range msb lsb :
  is_byte msb = true -> is_byte lsb = true -> 0 <= readUint msb lsb < 65536.
Proof.
  intros Hm Hl.
  pose proof (forall_bytes _ (forall_bytes _ readUint_checked msb Hm) lsb Hl) as H.
  cbv beta in H. unfold readUint_ok in H. cbv zeta in H.
  apply andb_true_iff in H as [H _]. apply andb_true_iff in H as [H1 _].
  apply Z.eqb_eq in H1. apply is_byte_range in Hm, Hl. lia.
Qed.

Lemma verifyChecksum_three data :
  List.length data = 3%nat ->
  verifyChecksum data = None \/ verifyChecksum data = Some ChecksumError.
Proof.
  intros H. unfold verifyChecksum. rewrite H. cbn [Nat.eqb negb].
  destruct (negb _); auto.
Qed.

Lemma fill6_blocks bytes :
  List.length (firstn 3 (fill 6 bytes)) = 3%nat /\
  List.length (skipn 3 (fill 6 bytes)) = 3%nat.
Proof.
  rewrite length_firstn, length_skipn, fill_length. split; reflexivity.
Qed.

(** What [decodeMeasurement] yields on the six bytes of a read buffer:
    either a checksum error and the environment untouched, or the two
    converted tick values with the pressure untouched. *)
Lemma decodeMeasurement_fill e bytes :
  let data := fill 6 bytes in
  decodeMeasurement e data = (e, Some ChecksumError) \/
  exists t rh,
    0 <= t < 65536 /\ 0 <= rh < 65536 /\
    decodeMeasurement e data =
      (physic.mkEnv (storedTemperature t) (physic.Pressure e) (storedHumidity rh),
       None).
Proof.
  intros data. unfold decodeMeasurement.
  destruct (fill6_blocks bytes) as [L1 L2]. fold data in L1, L2.
  destruct (verifyChecksum_three _ L1) as [-> | ->]; [|left; reflexivity].
  destruct (verifyChecksum_three _ L2) as [-> | ->]; [|left; reflexivity].
  right. eexists. eexists. split; [|split; [|reflexivity]];
    apply readUint_range; apply nth_fill_byte.
Qed.

Lemma decodeMeasurement_all_or_nothing e bytes :
  all_or_nothing e (decodeMeasurement e (fill 6 bytes)).
Proof.
  destruct (decodeMeasurement_fill e bytes) as [-> | (t & rh & Ht & Hrh & ->)].
  - reflexivity.
  - split; [reflexivity|]. split; cbn [physic.Temperature physic.Humidity].
    + apply storedTemperature_step; assumption.
    + apply storedHumidity_range; assumption.
Qed.

Lemma parseTemperature_all_or_nothing d e tr :
  all_or_nothing e (fst (parseTemperature d e tr)).
Proof.
  rewrite parseTemperature_eq. destruct (tx_err _); [reflexivity|].
  apply decodeMeasurement_all_or_nothing.
Qed.

Lemma sense_eq d e tr :
  sense d e tr =
  match tx_err (c_Bus d (tr ++ [EvTx (c_Addr d) [commandMeasureHighPrecision] 0])) with
  | Some msg =>
      ((e, Some (bus_error msg)),
       tr ++ [EvTx (c_Addr d) [commandMeasureHighPrecision] 0])
  | None =>
      parseTemperature d e
        ((tr ++ [EvTx (c_Addr d) [commandMeasureHighPrecision] 0])
           ++ [EvSleep (10 * Millisecond)])
  end.
Proof.
  cbv [sense bind ret Tx Sleep option_map]. destruct (tx_err _); reflexivity.
Qed.

Lemma sense_all_or_nothing d e tr : all_or_nothing e (fst (sense d e tr)).
Proof.
  rewrite sense_eq. destruct (tx_err _); [reflexivity|].
  apply parseTemperature_all_or_nothing.
Qed.

(** A read is all or nothing.  [Sense] and [ActivateHeater] either fail
    and leave the environment as it was ([ActivateHeater]: the zero
    environment), or succeed and then only temperature and humidity are
    written: the pressure keeps its value, the temperature lies between
    -45 and 130 degrees Celsius and the humidity between 0 and 100
    percent. *)
Theorem reads_are_all_or_nothing (d : Dev) (e : physic.Env) (mode : Z)
    (tr : list event) :
  all_or_nothing e (fst (Sense_locked d e tr)) /\
  all_or_nothing physic.zero (fst (ActivateHeater_locked d mode tr)).
Proof.
  split.
  - unfold Sense_locked. destruct (stop d); [reflexivity|].
    apply sense_all_or_nothing.
  - destruct (heaterSwitch mode) as [[cmd hold]|] eqn:Hsw.
    + rewrite (ActivateHeater_locked_eq _ _ _ _ _ Hsw).
      destruct (tx_err _); [reflexivity|]. apply parseTemperature_all_or_nothing.
    + unfold ActivateHeater_locked. rewrite Hsw. reflexivity.
Qed.

Lemma parseTemperature_read_error d e tr :
  read_error (snd (fst (parseTemperature d e tr))).
Proof.
  rewrite parseTemperature_eq. destruct (tx_err _) as [msg|].
  - right. left. exists msg. reflexivity.
  - destruct (decodeMeasurement_fill e (tx_data (c_Bus d (tr ++ [EvTx (c_Addr d) [] 6]))))
      as [-> | (t & rh & _ & _ & ->)].
    + right. right. reflexivity.
    + left. reflexivity.
Qed.

Lemma sense_read_error d e tr : read_error (snd (fst (sense d e tr))).
Proof.
  rewrite sense_eq. destruct (tx_err _) as [msg|].
  - right. left. exists msg. reflexivity.
  - apply parseTemperature_read_error.
Qed.

Lemma GetSerial_read_error d tr : read_error (snd (fst (GetSerial d tr))).
Proof.
  cbv [GetSerial bind ret Tx Sleep option_map].
  destruct (tx_err _) as [msg|]; [right; left; exists msg; reflexivity|].
  destruct (tx_err _) as [msg|]; [right; left; exists msg; reflexivity|].
  match goal with
  | |- context [fill 6 ?b] => destruct (fill6_blocks b) as [L1 L2]
  end.
  destruct (verifyChecksum_three _ L1) as [-> | ->]; [|right; right; reflexivity].
  destruct (verifyChecksum_three _ L2) as [-> | ->]; [|right; right; reflexivity].
  left. reflexivity.
Qed.

Lemma read_error_not_length err : read_error err -> err <> Some InvalidLengthError.
Proof. intros [-> | [[msg ->] | ->]]; discriminate. Qed.

(** The error taxonomy of the driver.  Whatever the transport does, the
    error of [Sense] is nil, a transport error, the checksum error or the
    already-sensing error; that of [ActivateHeater] is nil, a transport
    error, the checksum error or the invalid-mode error; that of
    [GetSerial] is nil, a transport error or the checksum error.  The
    invalid-length error of [verifyChecksum] is never returned: the driver
    only ever checks three-byte blocks. *)
Theorem driver_errors (d : Dev) (e : physic.Env) (mode : Z) (tr : list event) :
  let sense_err := snd (fst (Sense_locked d e tr)) in
  let heater_err := snd (fst (ActivateHeater_locked d mode tr)) in
  let serial_err := snd (fst (GetSerial d tr)) in
  (read_error sense_err \/ sense_err = Some (AlreadySensingError (Name d))) /\
  (read_error heater_err \/ heater_err = Some InvalidModeError) /\
  read_error serial_err /\
  sense_err <> Some InvalidLengthError /\
  heater_err <> Some InvalidLengthError /\
  serial_err <> Some InvalidLengthError.
Proof.
  intros sense_err heater_err serial_err.
  assert (Hs : read_error sense_err \/ sense_err = Some (AlreadySensingError (Name d))).
  { unfold sense_err, Sense_locked. destruct (stop d); [right; reflexivity|].
    left. apply sense_read_error. }
  assert (Hh : read_error heater_err \/ heater_err = Some InvalidModeError).
  { unfold heater_err. destruct (heaterSwitch mode) as [[cmd hold]|] eqn:Hsw.
    - rewrite (ActivateHeater_locked_eq _ _ _ _ _ Hsw).
      destruct (tx_err _) as [msg|].
      + left. right. left. exists msg. reflexivity.
      + left. apply parseTemperature_read_error.
    - unfold ActivateHeater_locked. rewrite Hsw. right. reflexivity. }
  pose proof (GetSerial_read_error d tr) as Hg. fold serial_err in Hg.
  repeat split; try assumption.
  - destruct Hs as [Hs | ->]; [apply read_error_not_length, Hs | discriminate].
  - destruct Hh as [Hh | ->]; [apply read_error_not_length, Hh | discriminate].
  - apply read_error_not_length, Hg.
Qed.

(** A single-shot [Sense] on a handle with no sampling flag, once it
    holds the lock: it sends the high-precision opcode; if the transport
    refuses it, nothing else happens; otherwise it sleeps 10 ms and reads
    6 bytes, and the decoding of those bytes is what it returns. *)
Theorem Sense_sequence (s : Sys) (e : physic.Env) :
  mu (dev s) = None ->
  stop (dev s) = None ->
  let d := dev s in
  let sent := trace s ++ [EvTx (c_Addr d) [commandMeasureHighPrecision] 0] in
  let read := trace s ++ [EvTx (c_Addr d) [commandMeasureHighPrecision] 0;
                          EvSleep (10 * Millisecond); EvTx (c_Addr d) [] 6] in
  caller_step (invoke (CSense e) s) =
  Some match tx_err (c_Bus d sent) with
       | Some msg => returns s sent (RSense e (Some (bus_error msg)))
       | None =>
           match tx_err (c_Bus d read) with
           | Some msg => returns s read (RSense e (Some (bus_error msg)))
           | None =>
               let '(e', err) :=
                 decodeMeasurement e (fill 6 (tx_data (c_Bus d read))) in
               returns s read (RSense e' err)
           end
       end.
Proof.
  intros Hmu Hstop d sent read.
  rewrite (caller_step_unlocked _ _ Hmu). f_equal.
  cbv [enter invoke set_main dev trace].
  change (let (dev, _, _, _, _, _, _) := s in dev) with (dev s).
  change (let (_, trace, _, _, _, _, _) := s in trace) with (trace s).
  unfold Sense_locked. rewrite Hstop, sense_eq. fold d sent.
  destruct (tx_err (c_Bus d sent)) as [msg|]; [reflexivity|].
  rewrite parseTemperature_eq.
  replace ((sent ++ [EvSleep (10 * Millisecond)]) ++ [EvTx (c_Addr d) [] 6])
    with read by (unfold sent, read; rewrite <- !app_assoc; reflexivity).
  destruct (tx_err (c_Bus d read)) as [msg|]; [reflexivity|].
  destruct (decodeMeasurement _ _) as [e' err]. reflexivity.
Qed.

Lemma Sense_sequence_witness :
  caller_step (invoke (CSense physic.zero) Fixture.s0) =
  Some (returns Fixture.s0
          (Fixture.boot_trace ++
             [EvTx 0x44 [commandMeasureHighPrecision] 0;
              EvSleep (10 * Millisecond); EvTx 0x44 [] 6])
          (RSense (physic.mkEnv (storedTemperature 0x1234) 0
                     (storedHumidity 0x5678)) None)).
Proof. exact (Sense_sequence Fixture.s0 physic.zero eq_refl eq_refl). Defined.

Lemma GetSerial_trace d tr n tr' :
  GetSerial d tr = ((n, None), tr') ->
  tr' = tr ++ [EvTx (c_Addr d) [commandReadSerialNumber] 0;
               EvSleep (1 * Millisecond); EvTx (c_Addr d) [] 6].
Proof.
  cbv [GetSerial bind ret Tx Sleep option_map].
  destruct (tx_err _); [discriminate|].
  destruct (tx_err _); [discriminate|].
  destruct (verifyChecksum _); [discriminate|].
  destruct (verifyChecksum _); [discriminate|].
  intros H. injection H as _ <-. apply app_three.
Qed.

(** [New] resets the sensor and reads its serial number.  It returns a
    handle exactly when it returns no error.  The handle is bound to the
    bus and to the address and name of the options (0x44 and sht4x when
    the options are nil), carries the serial number [GetSerial] read, and
    is idle: lock free, no sampling flag, no worker counted, measurement
    delay 10 ms; five events happened.  When the reset itself fails, [New]
    still sleeps 1 ms and gives up without asking for the serial number. *)
Theorem New_outcome (b : Bus) (opts : option Opts) (tr0 : list event) :
  let o := match opts with None => DefaultOpts | Some o => o end in
  let addr := uint16 (I2cAddress o) in
  let reset := tr0 ++ [EvTx addr [commandSoftReset] 0; EvSleep (1 * Millisecond)] in
  match New b opts tr0 with
  | ((Some d, err), tr) =>
      err = None /\
      tx_err (b (tr0 ++ [EvTx addr [commandSoftReset] 0])) = None /\
      d = mkDev b addr (10 * Millisecond) (Opts_Name o)
                (fst (fst (GetSerial d reset))) None None 0 /\
      tr = reset ++ [EvTx addr [commandReadSerialNumber] 0;
                     EvSleep (1 * Millisecond); EvTx addr [] 6]
  | ((None, err), tr) =>
      err <> None /\ read_error err /\
      (tx_err (b (tr0 ++ [EvTx addr [commandSoftReset] 0])) <> None -> tr = reset)
  end.
Proof.
  intros o addr reset. unfold New. fold o. fold addr.
  set (d0 := mkDev b addr (10 * Millisecond) (Opts_Name o) 0 None None 0).
  cbv [bind ret Reset Tx Sleep option_map]. cbn [c_Bus c_Addr d0].
  destruct (tx_err (b (tr0 ++ [EvTx addr [commandSoftReset] 0]))) as [msg|] eqn:Hr.
  - split; [discriminate|]. split.
    + right. left. exists msg. reflexivity.
    + intros _. unfold reset. rewrite <- app_assoc. reflexivity.
  - replace ((tr0 ++ [EvTx addr [commandSoftReset] 0]) ++ [EvSleep (1 * Millisecond)])
      with reset by (unfold reset; rewrite <- app_assoc; reflexivity).
    pose proof (GetSerial_read_error d0 reset) as Herr.
    destruct (GetSerial d0 reset) as [[serial [er|]] tr] eqn:Hg.
    + split; [discriminate|]. split; [exact Herr|]. intros H. contradiction.
    + split; [reflexivity|]. split; [reflexivity|]. split.
      * assert (Hsame : GetSerial (set_Serial d0 serial) reset = GetSerial d0 reset)
          by reflexivity.
        rewrite Hsame, Hg. reflexivity.
      * apply (GetSerial_trace d0 reset serial tr Hg).
Qed.

Lemma count_live_app ws w :
  count_live (ws ++ [w]) = (count_live ws + (if live w then 1 else 0))%nat.
Proof.
  induction ws as [|x ws IH]; cbn [app count_live]; [lia|]. rewrite IH. lia.
Qed.

Lemma count_live_set_nth ws : forall i w w',
  nth_error ws i = Some w ->
  (count_live (set_nth i w' ws) + (if live w then 1 else 0)
   = count_live ws + (if live w' then 1 else 0))%nat.
Proof.
  induction ws as [|x ws IH]; intros [|i] w w' H; cbn in H; try discriminate.
  - injection H as ->. cbn [set_nth count_live]. lia.
  - cbn [set_nth count_live]. pose proof (IH i w w' H). lia.
Qed.

Lemma nth_error_set_nth {A} (l : list A) : forall i j x,
  nth_error (set_nth i x l) j =
  if Nat.eqb i j then
    match nth_error l j with Some _ => Some x | None => None end
  else nth_error l j.
Proof.
  induction l as [|y l IH]; intros [|i] [|j] x; cbn; try reflexivity.
  - destruct (Nat.eqb i j); destruct j; reflexivity.
  - apply IH.
Qed.

Lemma set_wg_wg d n : wg (set_wg d n) = n.
Proof. destruct d. reflexivity. Qed.
Lemma set_mu_wg d m : wg (set_mu d m) = wg d.
Proof. destruct d. reflexivity. Qed.
Lemma set_stop_wg d c : wg (set_stop d c) = wg d.
Proof. destruct d. reflexivity. Qed.
Lemma set_wg_mu d n : mu (set_wg d n) = mu d.
Proof. destruct d. reflexivity. Qed.
Lemma set_stop_mu d c : mu (set_stop d c) = mu d.
Proof. destruct d. reflexivity. Qed.

Lemma counting_spawn interval s :
  wg (dev s) = count_live (workers s) -> wg (dev s) = O -> counting (spawn interval s).
Proof.
  intros H1 H0. unfold counting. cbn [spawn dev workers main].
  rewrite set_mu_wg, set_wg_wg, set_mu_stop, set_wg_stop, set_stop_stop,
    count_live_app, <- H1, H0.
  cbn. repeat split; try lia; discriminate.
Qed.

Lemma counting_invariant s : reachable s -> counting s.
Proof.
  induction 1 as [b opts d tr Hnew | s c Hs IH Hidle | s s' Hs IH Hstep].
  - destruct (New_handle _ _ _ _ Hnew) as (Hmu & Hst & Hwg).
    unfold counting. cbn. rewrite Hwg. repeat split; auto; lia.
  - destruct IH as (I1 & I2 & I3 & I4). unfold counting. cbn [invoke set_main dev workers main].
    repeat split; try assumption; try discriminate.
    intros _ Hst. apply I4; [|exact Hst].
    intros w Hw. rewrite Hw in Hidle. discriminate.
  - destruct IH as (I1 & I2 & I3 & I4).
    destruct Hstep as [s s' Hc | ch i s s' Hw].
    + unfold caller_step in Hc. destruct (main s) as [|c|w0|r] eqn:Hm;
        try discriminate.
      * destruct (mu (dev s)); [discriminate|]. injection Hc as <-.
        destruct c as [e|interval| |mode]; cbn [enter].
        -- destruct (Sense_locked (dev s) e (trace s)) as [[e' err] tr'].
           unfold counting. cbn [returns dev workers main].
           repeat split; try assumption; try discriminate. intros _ Hst. apply I4; [discriminate | exact Hst].
        -- destruct (stop (dev s)) as [c|] eqn:Hst.
           ++ unfold counting. cbn [cancel dev workers main].
              rewrite set_mu_wg, set_stop_wg, set_mu_stop, set_stop_stop.
              repeat split; try assumption. intros Hx. exfalso. apply (Hx _ eq_refl).
           ++ apply counting_spawn; [exact I1 | apply I4; [discriminate | reflexivity]].
        -- destruct (stop (dev s)) as [c|] eqn:Hst.
           ++ unfold counting. cbn [cancel dev workers main].
              rewrite set_mu_wg, set_stop_wg, set_mu_stop, set_stop_stop.
              repeat split; try assumption. intros Hx. exfalso. apply (Hx _ eq_refl).
           ++ unfold counting. cbn [returns dev workers main].
              repeat split; try assumption; try discriminate. intros _ _. apply I4; [discriminate | reflexivity].
        -- destruct (ActivateHeater_locked (dev s) mode (trace s)) as [[e' err] tr'].
           unfold counting. cbn [returns dev workers main].
           repeat split; try assumption; try discriminate. intros _ Hst. apply I4; [discriminate | exact Hst].
      * destruct (wg (dev s)) eqn:Hwg; [|discriminate]. injection Hc as <-.
        destruct w0 as [|interval]; cbn [resume].
        -- unfold counting. cbn [dev workers main].
           rewrite set_mu_wg, set_mu_stop, Hwg.
           repeat split; try assumption; try lia; discriminate.
        -- apply counting_spawn; [rewrite Hwg; exact I1 | exact Hwg].
    + destruct (worker_step_frame _ _ _ _ Hw) as [Hmain Hstop].
      assert (Hrest : (forall w, main s' = AtWait w -> stop (dev s') = None) /\
                      (wg (dev s') <= wg (dev s))%nat ->
                      wg (dev s') = count_live (workers s') -> counting s').
      { intros [H3 Hle] H1. unfold counting. repeat split; try assumption; try lia.
        intros Hnw Hst. rewrite Hmain in Hnw. rewrite Hstop in Hst.
        specialize (I4 Hnw Hst). lia. }
      assert (H3 : forall w, main s' = AtWait w -> stop (dev s') = None).
      { intros w Hx. rewrite Hstop. apply (I3 w). rewrite <- Hmain. exact Hx. }
      clear Hmain Hstop.
      worker_cases Hw; apply Hrest; clear Hrest;
        cbn [worker_exit dev workers] in *;
        rewrite ?set_wg_wg, ?set_mu_wg;
        try (split; [exact H3 | lia]);
        match goal with
        | |- _ = count_live (set_nth ?i ?w' _) =>
            pose proof (count_live_set_nth _ i _ w' Hnth) as Hcount
        end;
        unfold live in Hcount; cbn [w_pc set_pc] in Hcount; rewrite Hpc in Hcount;
        lia.
Qed.

Lemma nth_error_set_nth_same {A} (l : list A) i x y :
  nth_error l i = Some y -> nth_error (set_nth i x l) i = Some x.
Proof.
  intros H. rewrite nth_error_set_nth, Nat.eqb_refl, H. reflexivity.
Qed.

Lemma nth_error_set_nth_other {A} (l : list A) i j x :
  i <> j -> nth_error (set_nth i x l) j = nth_error l j.
Proof.
  intros H. rewrite nth_error_set_nth.
  destruct (Nat.eqb_spec i j); [contradiction | reflexivity].
Qed.

(** A step of worker [i] that neither enters nor leaves the measurement
    and leaves the lock alone keeps the lock invariant. *)
Lemma holding_other_pc s d' tr' cl' dl' i w w' :
  holding s ->
  nth_error (workers s) i = Some w ->
  w_pc w <> WSense -> w_pc w' <> WSense ->
  mu d' = mu (dev s) ->
  holding (mkSys d' tr' cl' (nchan s) (set_nth i w' (workers s)) dl' (main s)).
Proof.
  intros (H1 & H2 & H3 & H4) Hnth Hpc Hpc' Hmu. unfold holding.
  cbn [dev workers main]. rewrite Hmu. repeat split; try assumption.
  - intros j wk Hj Hs. destruct (Nat.eq_dec i j) as [<- | Hne].
    + rewrite (nth_error_set_nth_same _ _ _ _ Hnth) in Hj. injection Hj as <-.
      contradiction.
    + rewrite (nth_error_set_nth_other _ _ _ _ Hne) in Hj. apply (H1 j wk Hj Hs).
  - intros j Hj. destruct (H4 j Hj) as (wk & Hwk & Hs).
    destruct (Nat.eq_dec i j) as [<- | Hne].
    + rewrite Hnth in Hwk. injection Hwk as <-. contradiction.
    + exists wk. rewrite (nth_error_set_nth_other _ _ _ _ Hne). auto.
Qed.

Lemma holding_spawn interval s :
  holding s -> mu (dev s) = None \/ mu (dev s) = Some Caller ->
  holding (spawn interval s).
Proof.
  intros (H1 & H2 & H3 & H4) Hmu. unfold holding. cbn [spawn dev workers main].
  rewrite set_mu_mu. repeat split; try discriminate.
  intros i wk Hi Hs. exfalso.
  destruct (Nat.lt_ge_cases i (List.length (workers s))) as [Hlt | Hge].
  - rewrite nth_error_app1 in Hi by exact Hlt.
    pose proof (H1 i wk Hi Hs) as Hm. destruct Hmu as [Hmu | Hmu];
      rewrite Hmu in Hm; discriminate.
  - rewrite nth_error_app2 in Hi by exact Hge.
    destruct (i - List.length (workers s))%nat as [|k]; cbn in Hi.
    + injection Hi as <-. discriminate.
    + destruct k; discriminate.
Qed.

Lemma holding_invariant s : reachable s -> holding s.
Proof.
  induction 1 as [b opts d tr Hnew | s c Hs IH Hidle | s s' Hs IH Hstep].
  - destruct (New_handle _ _ _ _ Hnew) as (Hmu & Hst & Hwg).
    unfold holding. cbn. rewrite Hmu. repeat split; try discriminate.
    intros [|i] wk Hi; discriminate.
  - destruct IH as (H1 & H2 & H3 & H4). unfold holding.
    cbn [invoke set_main dev workers main]. repeat split; try assumption;
      try discriminate.
    intros Hmu. destruct (H3 Hmu) as [w Hw]. rewrite Hw in Hidle. discriminate.
  - destruct Hstep as [s s' Hc | ch i s s' Hw].
    + pose proof IH as (H1 & H2 & H3 & H4).
      unfold caller_step in Hc. destruct (main s) as [|c|w0|r] eqn:Hm;
        try discriminate.
      * destruct (mu (dev s)) eqn:Hmu; [discriminate|]. injection Hc as <-.
        assert (Hkeep : forall tr r, holding (returns s tr r)).
        { intros tr r. unfold holding. cbn [returns dev workers main].
          rewrite Hmu. repeat split; try discriminate. exact H1. }
        assert (Hcancel : forall c0 w, holding (cancel c0 w s)).
        { intros c0 w. unfold holding. cbn [cancel dev workers main].
          rewrite set_mu_mu. repeat split; try discriminate.
          - intros i wk Hi Hsn. pose proof (H1 i wk Hi Hsn). discriminate.
          - intros _. eexists. reflexivity. }
        destruct c as [e|interval| |mode]; cbn [enter].
        -- destruct (Sense_locked (dev s) e (trace s)) as [[e' err] tr']. apply Hkeep.
        -- destruct (stop (dev s)); [apply Hcancel|].
           apply holding_spawn; [|left; exact Hmu].
           unfold holding. rewrite Hm, Hmu. repeat split; assumption.
        -- destruct (stop (dev s)); [apply Hcancel | apply Hkeep].
        -- destruct (ActivateHeater_locked (dev s) mode (trace s)) as [[e' err] tr'].
           apply Hkeep.
      * destruct (wg (dev s)) eqn:Hwg; [|discriminate]. injection Hc as <-.
        pose proof (H2 w0 eq_refl) as Hmu.
        destruct w0 as [|interval]; cbn [resume].
        -- unfold holding. cbn [dev workers main]. rewrite set_mu_mu.
           repeat split; try discriminate.
           intros i wk Hi Hsn. pose proof (H1 i wk Hi Hsn) as Hx.
           rewrite Hmu in Hx. discriminate.
        -- apply holding_spawn; [|right; exact Hmu].
           unfold holding. rewrite Hm. repeat split; assumption.
    + pose proof IH as (H1 & H2 & H3 & H4).
      worker_cases Hw.
      * (* WStart *)
        eapply (holding_other_pc s (dev s)); [exact IH | exact Hnth | | | ];
          [rewrite Hpc; discriminate | cbn; discriminate | reflexivity].
      * (* WLock: takes the lock *)
        unfold holding. cbn [dev workers main]. rewrite set_mu_mu.
        repeat split; try discriminate.
        -- intros j wk Hj Hsn. destruct (Nat.eq_dec i j) as [<- | Hne];
             [reflexivity|].
           rewrite (nth_error_set_nth_other _ _ _ _ Hne) in Hj.
           pose proof (H1 j wk Hj Hsn). discriminate.
        -- intros w0 Hw0. pose proof (H2 w0 Hw0). discriminate.
        -- intros j Hj. injection Hj as <-. eexists. split.
           ++ apply (nth_error_set_nth_same _ _ _ _ Hnth).
           ++ reflexivity.
      * (* WSense, the measurement failed *)
        pose proof (H1 i w Hnth Hpc) as Hmu.
        unfold holding. cbn [worker_exit dev workers main].
        rewrite set_wg_mu, set_mu_mu. repeat split; try discriminate.
        -- intros j wk Hj Hsn. exfalso. destruct (Nat.eq_dec i j) as [<- | Hne].
           ++ rewrite (nth_error_set_nth_same _ _ _ _ Hnth) in Hj.
              injection Hj as <-. discriminate.
           ++ rewrite (nth_error_set_nth_other _ _ _ _ Hne) in Hj.
              pose proof (H1 j wk Hj Hsn) as Hx. rewrite Hmu in Hx.
              injection Hx as ->. contradiction.
        -- intros w0 Hw0. pose proof (H2 w0 Hw0) as Hx. rewrite Hmu in Hx.
           discriminate.
      * (* WSense, the measurement succeeded *)
        pose proof (H1 i w Hnth Hpc) as Hmu.
        unfold holding. cbn [dev workers main].
        rewrite set_mu_mu. repeat split; try discriminate.
        -- intros j wk Hj Hsn. exfalso. destruct (Nat.eq_dec i j) as [<- | Hne].
           ++ rewrite (nth_error_set_nth_same _ _ _ _ Hnth) in Hj.
              injection Hj as <-. discriminate.
           ++ rewrite (nth_error_set_nth_other _ _ _ _ Hne) in Hj.
              pose proof (H1 j wk Hj Hsn) as Hx. rewrite Hmu in Hx.
              injection Hx as ->. contradiction.
        -- intros w0 Hw0. pose proof (H2 w0 Hw0) as Hx. rewrite Hmu in Hx.
           discriminate.
      * eapply (holding_other_pc s); [exact IH | exact Hnth | | | ];
          [rewrite Hpc; discriminate | cbn; discriminate | apply set_wg_mu].
      * eapply (holding_other_pc s (dev s)); [exact IH | exact Hnth | | | ];
          [rewrite Hpc; discriminate | cbn; discriminate | reflexivity].
      * eapply (holding_other_pc s); [exact IH | exact Hnth | | | ];
          [rewrite Hpc; discriminate | cbn; discriminate | apply set_wg_mu].
      * eapply (holding_other_pc s (dev s)); [exact IH | exact Hnth | | | ];
          [rewrite Hpc; discriminate | cbn; discriminate | reflexivity].
Qed.

(** The shape of a worker step: only worker [i] changes, it keeps its
    channel, and the caller's frame stays. *)
Lemma worker_step_shape ch i s s' :
  worker_step ch i s = Some s' ->
  exists w w',
    nth_error (workers s) i = Some w /\
    workers s' = set_nth i w' (workers s) /\
    w_sensing w' = w_sensing w /\
    w_pc w <> WDone /\
    (w_pc w = WLock -> mu (dev s) = None) /\
    (w_pc w' = WDone -> closed s' = w_sensing w :: closed s) /\
    (w_pc w' <> WDone -> closed s' = closed s) /\
    (w_pc w' = WStart -> False) /\
    (w_pc w <> WStart -> w_interval w' = w_interval w) /\
    (w_pc w = WStart -> measDelay (dev s) <= w_interval w') /\
    measDelay (dev s') = measDelay (dev s).
Proof.
  intros H. worker_cases H; eexists; eexists; (split; [reflexivity|]);
    cbn [workers worker_exit closed dev w_pc w_sensing w_interval set_pc];
    rewrite Hpc;
    repeat split; try reflexivity; try discriminate; try congruence;
    try (destruct (dev s); reflexivity).
  all: cbn [w_pc set_pc w_interval]; try congruence.
  intros _. destruct (Z.ltb_spec (w_interval w) (measDelay (dev s))); lia.
Qed.

Lemma count_live_pos ws : forall i w,
  nth_error ws i = Some w -> live w = true -> (1 <= count_live ws)%nat.
Proof.
  induction ws as [|x ws IH]; intros [|i] w H Hl; cbn in H; try discriminate.
  - injection H as ->. cbn [count_live]. rewrite Hl. lia.
  - cbn [count_live]. pose proof (IH i w H Hl). lia.
Qed.

Lemma count_live_zero ws :
  count_live ws = O -> forall w, In w ws -> w_pc w = WDone.
Proof.
  induction ws as [|x ws IH]; intros H w Hin; [contradiction|].
  cbn [count_live] in H. destruct (live x) eqn:Hl; [lia|].
  destruct Hin as [<- | Hin]; [|apply IH; [lia | exact Hin]].
  unfold live in Hl. destruct (w_pc x); try discriminate. reflexivity.
Qed.

Lemma steps_reachable s s' : steps s s' -> reachable s -> reachable s'.
Proof.
  induction 1 as [|s s1 s2 Hstep _ IH]; intros Hs; [exact Hs|].
  apply IH. apply (reach_step s s1 Hs Hstep).
Qed.

Lemma stuck_at_lock_step w i s s' :
  reachable s -> stuck_at_lock w i s -> step s s' -> stuck_at_lock w i s'.
Proof.
  intros Hs (Hm & wk & Hwk & Hpc) Hstep.
  destruct (counting_invariant s Hs) as (C1 & _).
  destruct (holding_invariant s Hs) as (_ & L2 & _).
  destruct Hstep as [s s' Hc | ch j s s' Hw].
  - exfalso. unfold caller_step in Hc. rewrite Hm in Hc.
    assert (Hl : live wk = true) by (unfold live; rewrite Hpc; reflexivity).
    pose proof (count_live_pos _ _ _ Hwk Hl).
    destruct (wg (dev s)); [lia | discriminate].
  - destruct (worker_step_frame _ _ _ _ Hw) as [Hmain _].
    destruct (worker_step_shape _ _ _ _ Hw)
      as (w0 & w' & Hj & Hws & _ & _ & Hlock & _).
    split; [rewrite Hmain; exact Hm|].
    destruct (Nat.eq_dec j i) as [-> | Hne].
    + exfalso. rewrite Hwk in Hj. injection Hj as <-.
      rewrite (L2 w Hm) in Hlock. specialize (Hlock Hpc). discriminate.
    + exists wk. rewrite Hws, (nth_error_set_nth_other _ _ _ _ Hne). auto.
Qed.

(** The deadlock in general.  Whenever [Halt] or [SenseContinuous] waits
    in [d.wg.Wait()] while a worker stands before [d.mu.Lock()], however
    the goroutines are scheduled from there on, the caller is still
    waiting and that worker is still before the lock: the method never
    returns. *)
Theorem wait_while_worker_at_lock_never_ends (w : waiter) (i : nat) (s s' : Sys) :
  reachable s -> stuck_at_lock w i s -> steps s s' ->
  stuck_at_lock w i s' /\ idle (main s') = false.
Proof.
  intros Hs Hstuck Hsteps.
  assert (H : stuck_at_lock w i s').
  { revert Hs Hstuck.
    induction Hsteps as [|s s1 s2 Hstep _ IH]; intros Hs Hstuck; [exact Hstuck|].
    apply IH.
    - apply (reach_step s s1 Hs Hstep).
    - apply (stuck_at_lock_step w i s s1 Hs Hstuck Hstep). }
  split; [exact H|]. destruct H as [Hm _]. rewrite Hm. reflexivity.
Qed.

Lemma wait_while_worker_at_lock_never_ends_witness :
  exists s,
    run halt_before_worker_locks Fixture.s0 = Some s /\
    stuck_at_lock WaitHalt 0 s /\
    forall s', steps s s' -> idle (main s') = false.
Proof.
  eexists. split; [vm_compute; reflexivity|].
  assert (Hstuck : stuck_at_lock WaitHalt 0
            (mkSys (mkDev Fixture.bus 0x44 (10 * Millisecond) "sht4x" 0x12345678
                      (Some Caller) None 1)
                   Fixture.boot_trace [1%nat] 2%nat
                   [mkWorker WLock Fixture.Second 0%nat (Some 1%nat)] []
                   (AtWait WaitHalt))).
  { split; [reflexivity|]. eexists. split; reflexivity. }
  split; [exact Hstuck|].
  intros s' Hsteps.
  refine (proj2 (wait_while_worker_at_lock_never_ends WaitHalt 0 _ s' _ Hstuck Hsteps)).
  apply (run_reachable halt_before_worker_locks _ _ Fixture_reachable).
  vm_compute. reflexivity.
Defined.

(** The shape of a caller step: workers are only ever added, in their
    start state; channels are only ever closed; samples are untouched. *)
Lemma caller_step_shape s s' :
  caller_step s = Some s' ->
  (workers s' = workers s \/
   exists wk, workers s' = workers s ++ [wk] /\ w_pc wk = WStart) /\
  (forall c, In c (closed s) -> In c (closed s')) /\
  measDelay (dev s') = measDelay (dev s) /\
  delivered s' = delivered s.
Proof.
  unfold caller_step. intros H.
  assert (Hspawn : forall interval,
    (workers (spawn interval s) = workers s \/
     exists wk, workers (spawn interval s) = workers s ++ [wk] /\ w_pc wk = WStart) /\
    (forall c, In c (closed s) -> In c (closed (spawn interval s))) /\
    measDelay (dev (spawn interval s)) = measDelay (dev s) /\
    delivered (spawn interval s) = delivered s).
  { intros interval. cbn [spawn workers closed dev delivered].
    split; [right; eexists; split; reflexivity|].
    split; [auto|]. split; [destruct (dev s); reflexivity | reflexivity]. }
  assert (Hcancel : forall c w,
    (workers (cancel c w s) = workers s \/
     exists wk, workers (cancel c w s) = workers s ++ [wk] /\ w_pc wk = WStart) /\
    (forall c0, In c0 (closed s) -> In c0 (closed (cancel c w s))) /\
    measDelay (dev (cancel c w s)) = measDelay (dev s) /\
    delivered (cancel c w s) = delivered s).
  { intros c w. cbn [cancel workers closed dev delivered].
    split; [left; reflexivity|]. split; [intros c0 Hc0; right; exact Hc0|].
    split; [destruct (dev s); reflexivity | reflexivity]. }
  assert (Hret : forall tr r,
    (workers (returns s tr r) = workers s \/
     exists wk, workers (returns s tr r) = workers s ++ [wk] /\ w_pc wk = WStart) /\
    (forall c, In c (closed s) -> In c (closed (returns s tr r))) /\
    measDelay (dev (returns s tr r)) = measDelay (dev s) /\
    delivered (returns s tr r) = delivered s).
  { intros tr r. cbn [returns workers closed dev delivered]. auto. }
  destruct (main s) as [|c|w0|r]; try discriminate.
  - destruct (mu (dev s)); [discriminate|]. injection H as <-.
    destruct c as [e|interval| |mode]; cbn [enter].
    + destruct (Sense_locked (dev s) e (trace s)) as [[e' err] tr']. apply Hret.
    + destruct (stop (dev s)); [apply Hcancel | apply Hspawn].
    + destruct (stop (dev s)); [apply Hcancel | apply Hret].
    + destruct (ActivateHeater_locked (dev s) mode (trace s)) as [[e' err] tr'].
      apply Hret.
  - destruct (wg (dev s)); [|discriminate]. injection H as <-.
    destruct w0 as [|interval]; cbn [resume]; [|apply Hspawn].
    cbn [workers closed dev delivered].
    split; [left; reflexivity|]. split; [auto|].
    split; [destruct (dev s); reflexivity | reflexivity].
Qed.

Lemma New_measDelay b opts d tr :
  New b opts [] = ((Some d, None), tr) -> measDelay d = 10 * Millisecond.
Proof.
  cbv [New bind ret]. intros H.
  destruct (Reset _ _) as [[er|] tr1]; [discriminate|].
  destruct (GetSerial _ _) as [[serial [er|]] tr2]; [discriminate|].
  injection H as <- <-. reflexivity.
Qed.

Lemma workers_ok_invariant s : reachable s -> workers_ok s.
Proof.
  induction 1 as [b opts d tr Hnew | s c Hs IH Hidle | s s' Hs IH Hstep].
  - split; [apply (New_measDelay _ _ _ _ Hnew)|]. intros [|i] wk Hi; discriminate.
  - exact IH.
  - destruct IH as [Hd IH]. destruct Hstep as [s s' Hc | ch i s s' Hw].
    + destruct (caller_step_shape _ _ Hc) as (Hws & Hcl & Hmd & _).
      split; [rewrite Hmd; exact Hd|]. intros j wk Hj.
      assert (Hold : forall wk0, nth_error (workers s) j = Some wk0 ->
                (w_pc wk0 = WDone -> In (w_sensing wk0) (closed s')) /\
                (w_pc wk0 <> WStart -> 10 * Millisecond <= w_interval wk0)).
      { intros wk0 H0. destruct (IH j wk0 H0) as [A B]. split; auto. }
      destruct Hws as [Hws | (wk0 & Hws & Hpc0)]; rewrite Hws in Hj.
      * apply Hold, Hj.
      * destruct (Nat.lt_ge_cases j (List.length (workers s))) as [Hlt | Hge].
        -- rewrite nth_error_app1 in Hj by exact Hlt. apply Hold, Hj.
        -- rewrite nth_error_app2 in Hj by exact Hge.
           destruct (j - List.length (workers s))%nat as [|k]; cbn in Hj.
           ++ injection Hj as <-. rewrite Hpc0. split; [discriminate | congruence].
           ++ destruct k; discriminate.
    + destruct (worker_step_shape _ _ _ _ Hw)
        as (w & w' & Hi & Hws & Hsens & _ & _ & Hdone & Hlive & _ & Hkeep & Hfloor & Hmd).
      split; [rewrite Hmd; exact Hd|]. intros j wk Hj. rewrite Hws in Hj.
      destruct (Nat.eq_dec i j) as [<- | Hne].
      * rewrite (nth_error_set_nth_same _ _ _ _ Hi) in Hj. injection Hj as <-.
        destruct (IH i w Hi) as [_ B]. split.
        -- intros Hp. rewrite (Hdone Hp), Hsens. left. reflexivity.
        -- intros _. destruct (w_pc w) eqn:Hpc;
             try (rewrite Hkeep by discriminate; apply B; discriminate).
           rewrite <- Hd. apply Hfloor. reflexivity.
      * rewrite (nth_error_set_nth_other _ _ _ _ Hne) in Hj.
        destruct (IH j wk Hj) as [A B]. split; [|exact B].
        intros Hp. specialize (A Hp).
        destruct (w_pc w') eqn:Hpc';
          try (rewrite Hlive by discriminate; exact A).
        rewrite (Hdone eq_refl). right. exact A.
Qed.

(** At most one continuous-sampling worker is alive on a handle at any
    time, and the wait group counts exactly the workers that are alive. *)
Theorem at_most_one_live_worker (s : Sys) :
  reachable s ->
  count_live (workers s) = wg (dev s) /\ (count_live (workers s) <= 1)%nat.
Proof.
  intros Hs. destruct (counting_invariant s Hs) as (H1 & H2 & _).
  rewrite <- H1. split; [reflexivity | exact H2].
Qed.

Lemma at_most_one_live_worker_witness :
  exists s,
    run Fixture.restart_while_worker_waits Fixture.s0 = Some s /\
    List.length (workers s) = 2%nat /\
    count_live (workers s) = 1%nat.
Proof.
  eexists. split; [vm_compute; reflexivity|]. split; [reflexivity|].
  etransitivity.
  - refine (proj1 (at_most_one_live_worker _ _)).
    apply (run_reachable Fixture.restart_while_worker_waits _ _ Fixture_reachable).
    vm_compute. reflexivity.
  - reflexivity.
Defined.

(** The lock discipline.  In every reachable state a worker is inside its
    measurement (the only place it talks to the bus) exactly when it holds
    [d.mu], so no two workers measure at once; and the caller keeps the
    lock between steps exactly while it waits in [d.wg.Wait()], during
    which no worker measures. *)
Theorem lock_discipline (s : Sys) :
  reachable s ->
  holding s /\
  (forall i j wi wj,
      nth_error (workers s) i = Some wi -> w_pc wi = WSense ->
      nth_error (workers s) j = Some wj -> w_pc wj = WSense -> i = j) /\
  (forall w i wi,
      main s = AtWait w -> nth_error (workers s) i = Some wi -> w_pc wi <> WSense).
Proof.
  intros Hs. pose proof (holding_invariant s Hs) as H.
  split; [exact H|]. destruct H as (H1 & H2 & _). split.
  - intros i j wi wj Hi Hpi Hj Hpj.
    pose proof (H1 i wi Hi Hpi) as A. pose proof (H1 j wj Hj Hpj) as B.
    rewrite A in B. injection B as ->. reflexivity.
  - intros w i wi Hm Hi Hp. pose proof (H1 i wi Hi Hp) as A.
    rewrite (H2 w Hm) in A. discriminate.
Qed.

Lemma lock_discipline_witness :
  exists s,
    run Fixture.worker_measuring Fixture.s0 = Some s /\
    mu (dev s) = Some (Worker 0) /\ holding s.
Proof.
  eexists. split; [vm_compute; reflexivity|]. split; [reflexivity|].
  refine (proj1 (lock_discipline _ _)).
  apply (run_reachable Fixture.worker_measuring _ _ Fixture_reachable).
  vm_compute. reflexivity.
Defined.

(** When [Halt] returns, sampling has stopped for good: no worker counts
    in the wait group, every worker goroutine has returned and has closed
    its channel, so a consumer ranging over the channel terminates. *)
Theorem Halt_joins_workers (s s1 : Sys) :
  reachable s ->
  main s = AtLock CHalt \/ main s = AtWait WaitHalt ->
  caller_step s = Some s1 ->
  idle (main s1) = true ->
  wg (dev s1) = O /\
  forall wk, In wk (workers s1) -> w_pc wk = WDone /\ In (w_sensing wk) (closed s1).
Proof.
  intros Hs Hm Hc Hidle.
  assert (Hs1 : reachable s1) by (apply (reach_step s s1 Hs), step_caller, Hc).
  destruct (Halt_return s s1 Hs Hm Hc Hidle) as (Hmain & Hstop & Hmu).
  destruct (counting_invariant s1 Hs1) as (C1 & _ & _ & C4).
  assert (Hwg : wg (dev s1) = O).
  { apply C4; [|exact Hstop]. intros w Hw. rewrite Hmain in Hw. discriminate. }
  split; [exact Hwg|]. intros wk Hin.
  assert (Hdone : w_pc wk = WDone).
  { apply (count_live_zero (workers s1)); [rewrite <- C1; exact Hwg | exact Hin]. }
  split; [exact Hdone|].
  destruct (In_nth_error _ _ Hin) as [i Hi].
  destruct (workers_ok_invariant s1 Hs1) as [_ W]. apply (W i wk Hi), Hdone.
Qed.

Lemma Halt_joins_workers_witness :
  exists s s1,
    run sample_then_halt Fixture.s0 = Some s /\
    caller_step s = Some s1 /\
    map w_pc (workers s1) = [WDone] /\
    wg (dev s1) = O.
Proof.
  eexists. eexists. split; [vm_compute; reflexivity|].
  split; [vm_compute; reflexivity|]. split; [reflexivity|].
  refine (proj1 (Halt_joins_workers _ _ _ _ _ _)).
  - apply (run_reachable sample_then_halt _ _ Fixture_reachable).
    vm_compute. reflexivity.
  - right. reflexivity.
  - vm_compute. reflexivity.
  - reflexivity.
Defined.

(** The ticker of a worker never runs faster than the 10 ms measurement
    delay: whatever interval [SenseContinuous] was given, zero or negative
    included, a worker past its start has a period of at least 10 ms. *)
Theorem ticker_period_floored (s : Sys) (i : nat) (wk : worker) :
  reachable s ->
  nth_error (workers s) i = Some wk ->
  w_pc wk <> WStart ->
  10 * Millisecond <= w_interval wk.
Proof.
  intros Hs Hi Hp. destruct (workers_ok_invariant s Hs) as [_ W].
  apply (W i wk Hi), Hp.
Qed.

Lemma ticker_period_floored_witness :
  exists s wk,
    run [ACall (CSenseContinuous (-5)); ACaller; AWorker TakeOther 0] Fixture.s0
      = Some s /\
    nth_error (workers s) 0 = Some wk /\
    10 * Millisecond <= w_interval wk.
Proof.
  eexists. eexists. split; [vm_compute; reflexivity|]. split; [reflexivity|].
  refine (ticker_period_floored _ 0%nat _ _ _ _).
  - apply (run_reachable
             [ACall (CSenseContinuous (-5)); ACaller; AWorker TakeOther 0]
             _ _ Fixture_reachable).
    vm_compute. reflexivity.
  - reflexivity.
  - discriminate.
Defined.

Lemma worker_step_samples ch i s s' :
  worker_step ch i s = Some s' ->
  (forall w' e, nth_error (workers s') i = Some w' -> w_pc w' = WDeliver e ->
     sample_ok e) /\
  (delivered s' = delivered s \/
   exists w e, nth_error (workers s) i = Some w /\ w_pc w = WDeliver e /\
               delivered s' = delivered s ++ [(w_sensing w, e)]).
Proof.
  intros H. worker_cases H; cbn [workers worker_exit delivered];
    (split;
     [ intros w' e' Hw' Hp';
       rewrite (nth_error_set_nth_same _ _ _ _ Hnth) in Hw';
       injection Hw' as <-; cbn [w_pc set_pc] in Hp'; try discriminate
     | try (left; reflexivity) ]).
  - injection Hp' as <-.
    pose proof (sense_all_or_nothing (dev s) physic.zero (trace s)) as Ha.
    rewrite Hsense in Ha. destruct Ha as [Hp Hr]. split; assumption.
  - right. exists w, e. auto.
Qed.

Lemma samples_ok_invariant s : reachable s -> samples_ok s.
Proof.
  induction 1 as [b opts d tr Hnew | s c Hs IH Hidle | s s' Hs IH Hstep].
  - split; [intros c e []|]. intros [|i] wk e Hi; discriminate.
  - exact IH.
  - destruct IH as [ID IW]. destruct Hstep as [s s' Hc | ch i s s' Hw].
    + destruct (caller_step_shape _ _ Hc) as (Hws & _ & _ & Hdl).
      unfold samples_ok. rewrite Hdl. split.
      * intros c e Hin. destruct (ID c e Hin) as (Hok & j & wk & Hj & Hsn).
        split; [exact Hok|]. exists j, wk. split; [|exact Hsn].
        destruct Hws as [-> | (wk0 & -> & _)]; [exact Hj|].
        rewrite nth_error_app1; [exact Hj|]. apply nth_error_Some. congruence.
      * intros j wk e Hj Hp.
        destruct Hws as [Hws | (wk0 & Hws & Hpc0)]; rewrite Hws in Hj.
        -- apply (IW j wk e Hj Hp).
        -- destruct (Nat.lt_ge_cases j (List.length (workers s))) as [Hlt | Hge].
           ++ rewrite nth_error_app1 in Hj by exact Hlt. apply (IW j wk e Hj Hp).
           ++ rewrite nth_error_app2 in Hj by exact Hge.
              destruct (j - List.length (workers s))%nat as [|k]; cbn in Hj.
              ** injection Hj as <-. congruence.
              ** destruct k; discriminate.
    + destruct (worker_step_samples _ _ _ _ Hw) as [Hnew Hdl].
      destruct (worker_step_shape _ _ _ _ Hw)
        as (w & w' & Hi & Hws & Hsens & _).
      assert (Hkeep : forall c j wk, nth_error (workers s) j = Some wk ->
                w_sensing wk = c ->
                exists j' wk', nth_error (workers s') j' = Some wk' /\ w_sensing wk' = c).
      { intros c j wk Hj Hsn. rewrite Hws. destruct (Nat.eq_dec i j) as [<- | Hne].
        - exists i, w'. rewrite (nth_error_set_nth_same _ _ _ _ Hi).
          rewrite Hi in Hj. injection Hj as <-. split; [reflexivity | congruence].
        - exists j, wk. rewrite (nth_error_set_nth_other _ _ _ _ Hne). auto. }
      split.
      * intros c e Hin.
        destruct Hdl as [Hdl | (w0 & e0 & Hi0 & Hp0 & Hdl)]; rewrite Hdl in Hin.
        -- destruct (ID c e Hin) as (Hok & j & wk & Hj & Hsn).
           split; [exact Hok | apply (Hkeep c j wk Hj Hsn)].
        -- apply in_app_or in Hin as [Hin | [Heq | []]].
           ++ destruct (ID c e Hin) as (Hok & j & wk & Hj & Hsn).
              split; [exact Hok | apply (Hkeep c j wk Hj Hsn)].
           ++ injection Heq as <- <-. split; [apply (IW i w0 e0 Hi0 Hp0)|].
              apply (Hkeep _ i w0 Hi0 eq_refl).
      * intros j wk e Hj Hp. destruct (Nat.eq_dec i j) as [<- | Hne].
        -- apply (Hnew wk e Hj Hp).
        -- rewrite Hws, (nth_error_set_nth_other _ _ _ _ Hne) in Hj.
           apply (IW j wk e Hj Hp).
Qed.

(** Every sample a worker sends on its channel is a checked measurement:
    its temperature lies between -45 and 130 degrees Celsius, its humidity
    between 0 and 100 percent, its pressure is zero, and the channel is
    one [SenseContinuous] handed out.  A failed read is never delivered. *)
Theorem delivered_samples_checked (s : Sys) (c : chan) (e : physic.Env) :
  reachable s ->
  In (c, e) (delivered s) ->
  in_range e /\ physic.Pressure e = 0 /\
  exists i wk, nth_error (workers s) i = Some wk /\ w_sensing wk = c.
Proof.
  intros Hs Hin. destruct (samples_ok_invariant s Hs) as [ID _].
  destruct (ID c e Hin) as ([Hr Hp] & Hex). auto.
Qed.

Lemma delivered_samples_checked_witness :
  exists s e,
    run sample_then_halt Fixture.s0 = Some s /\
    delivered s = [(0%nat, e)] /\ in_range e.
Proof.
  eexists. eexists. split; [vm_compute; reflexivity|]. split; [reflexivity|].
  refine (proj1 (delivered_samples_checked _ 0%nat _ _ _)).
  - apply (run_reachable sample_then_halt _ _ Fixture_reachable).
    vm_compute. reflexivity.
  - left. reflexivity.
Defined.

(* ================================================================== *)
(** ** The decontamination tool ([cmd/decontaminate/main.go], [heatCycle])

    The tool is one goroutine and never starts continuous sampling, so
    whenever it calls [ActivateHeater] or [Sense] the lock is free; the
    calls are the locked bodies.  Its world is the driver's trace and the
    temperatures it logged with [slog.Warn].  The loop that waits for the
    sensor to cool down has no bound in the source; the model gives it
    fuel and returns [None] when the fuel runs out. *)

(* ================================================================== *)
(** ** The decontamination tool *)

Lemma Sense_locked_all_or_nothing d e tr :
  all_or_nothing e (fst (Sense_locked d e tr)).
Proof.
  unfold Sense_locked. destruct (stop d); [reflexivity|].
  apply sense_all_or_nothing.
Qed.

Lemma ActivateHeater_locked_all_or_nothing d mode tr :
  all_or_nothing physic.zero (fst (ActivateHeater_locked d mode tr)).
Proof.
  destruct (heaterSwitch mode) as [[cmd hold]|] eqn:Hsw.
  - rewrite (ActivateHeater_locked_eq _ _ _ _ _ Hsw).
    destruct (tx_err _); [reflexivity|]. apply parseTemperature_all_or_nothing.
  - unfold ActivateHeater_locked. rewrite Hsw. reflexivity.
Qed.

(** What a read appends to the trace never contains a heater command. *)
Lemma parseTemperature_extends d e tr :
  exists ext, snd (parseTemperature d e tr) = tr ++ ext /\ heater_commands ext = O.
Proof.
  rewrite parseTemperature_eq. exists [EvTx (c_Addr d) [] 6].
  destruct (tx_err _); split; reflexivity.
Qed.

Lemma Sense_locked_extends d e tr :
  exists ext, snd (Sense_locked d e tr) = tr ++ ext /\ heater_commands ext = O.
Proof.
  unfold Sense_locked. destruct (stop d).
  - exists []. split; [symmetry; apply app_nil_r | reflexivity].
  - rewrite sense_eq. destruct (tx_err _).
    + eexists. split; reflexivity.
    + destruct (parseTemperature_extends d e
                  ((tr ++ [EvTx (c_Addr d) [commandMeasureHighPrecision] 0])
                     ++ [EvSleep (10 * Millisecond)])) as (ext & -> & Hx).
      exists ([EvTx (c_Addr d) [commandMeasureHighPrecision] 0;
               EvSleep (10 * Millisecond)] ++ ext).
      split; [rewrite <- !app_assoc; reflexivity|].
      unfold heater_commands in *. rewrite filter_app, length_app, Hx. reflexivity.
Qed.

Lemma heater_commands_app a b :
  heater_commands (a ++ b) = (heater_commands a + heater_commands b)%nat.
Proof. unfold heater_commands. rewrite filter_app. apply length_app. Qed.

Lemma coolDown_outcome Celsius fuel : forall d e w r w',
  coolDown Celsius fuel d e w = Some (r, w') ->
  snd w' = snd w /\
  (exists ext, fst w' = fst w ++ ext /\ heater_commands ext = O) /\
  (snd r = None ->
   (Celsius (physic.Temperature (fst r)) <? 110)%float = true /\
   physic.Pressure (fst r) = physic.Pressure e /\ in_range (fst r)).
Proof.
  induction fuel as [|fuel IH]; intros d e w r w' H; [discriminate|].
  cbn [coolDown] in H. unfold liftIO in H.
  pose proof (Sense_locked_all_or_nothing d e (fst w)) as Ha.
  destruct (Sense_locked_extends d e (fst w)) as (ext & Hext & Hx).
  destruct (Sense_locked d e (fst w)) as [[e1 err] tr1].
  cbn [fst snd] in Ha, Hext. subst tr1.
  destruct err as [er|].
  - injection H as <- <-. cbn [fst snd]. split; [reflexivity|].
    split; [exists ext; auto | discriminate].
  - destruct Ha as [Hp Hr].
    destruct (Celsius (physic.Temperature e1) <? 110)%float eqn:Hc.
    + injection H as <- <-. cbn [fst snd]. split; [reflexivity|].
      split; [exists ext; auto | auto].
    + destruct (IH d e1 _ r w' H) as (Hs & (ext' & He' & Hx') & Hok).
      cbn [fst snd] in Hs, He'. split; [exact Hs|]. split.
      * exists (ext ++ ext'). rewrite He', <- app_assoc.
        split; [reflexivity|]. rewrite heater_commands_app, Hx, Hx'. reflexivity.
      * intros Hn. destruct (Hok Hn) as (A & B & C).
        split; [exact A|]. split; [congruence | exact C].
Qed.

Lemma ActivateHeater_high_long d tr :
  ActivateHeater_locked d HeaterHighLong tr =
  match tx_err (c_Bus d (tr ++ [EvTx (c_Addr d) [commandHeaterHigh1s] 0])) with
  | Some msg =>
      ((physic.zero, Some (bus_error msg)),
       tr ++ [EvTx (c_Addr d) [commandHeaterHigh1s] 0])
  | None =>
      parseTemperature d physic.zero
        ((tr ++ [EvTx (c_Addr d) [commandHeaterHigh1s] 0])
           ++ [EvSleep (1100 * Millisecond)])
  end.
Proof. apply ActivateHeater_locked_eq. reflexivity. Qed.

(** [heatCycle] succeeds only on a sample that is safe to go on with.  If
    it returns no error, the heater reading was not below [lowTemp], and
    either that reading was not above 110 degrees and is the sample
    returned, or a warning was logged and the sample returned is a later
    [Sense] reading below 110 degrees.  The sample is a checked
    measurement in either case. *)
Theorem heatCycle_success (Celsius : Z -> float) (fuel : nat) (d : Dev)
    (lowTemp : float) (w w' : World) (e : physic.Env) :
  heatCycle Celsius fuel d lowTemp w = Some ((e, None), w') ->
  let heated := ActivateHeater_locked d HeaterHighLong (fst w) in
  let first := Celsius (physic.Temperature (fst (fst heated))) in
  snd (fst heated) = None /\
  (first <? lowTemp)%float = false /\
  in_range e /\
  (((110 <? first)%float = false /\ e = fst (fst heated) /\
    w' = (snd heated, snd w)) \/
   ((110 <? first)%float = true /\
    (Celsius (physic.Temperature e) <? 110)%float = true /\
    snd w' = snd w ++ [first])).
Proof.
  intros H heated first. unfold heatCycle, liftIO in H.
  pose proof (ActivateHeater_locked_all_or_nothing d HeaterHighLong (fst w)) as Ha.
  fold heated in H, Ha. unfold first. clear first.
  destruct heated as [[eh err] tr1]. cbn [fst snd] in *.
  destruct err as [er|]; [discriminate|]. destruct Ha as [_ Hr].
  split; [reflexivity|].
  destruct (Celsius (physic.Temperature eh) <? lowTemp)%float; [discriminate|].
  split; [reflexivity|].
  destruct (110 <? Celsius (physic.Temperature eh))%float.
  - destruct (coolDown_outcome _ _ _ _ _ _ _ H) as (Hs & _ & Hok).
    cbn [fst snd] in Hs, Hok. destruct (Hok eq_refl) as (A & _ & C).
    split; [exact C|]. right. auto.
  - injection H as <- <-. split; [exact Hr|]. left. auto.
Qed.

Lemma heatCycle_success_witness :
  (physic_Celsius (storedTemperature 0x6666) <? 110)%float = true /\
  hot_then_warm_log = [] ++ [physic_Celsius (storedTemperature 0xFE00)].
Proof.
  assert (H : heatCycle physic_Celsius 5 hot_then_warm_dev 20 ([], [])
              = Some ((physic.mkEnv (storedTemperature 0x6666) 0
                         (storedHumidity 0x8000), None),
                      (hot_then_warm_trace, hot_then_warm_log)))
    by (vm_compute; reflexivity).
  destruct (heatCycle_success _ _ _ _ _ _ _ H)
    as (_ & _ & _ & [(Hx & _) | (_ & Hc & Hw)]).
  - vm_compute in Hx. discriminate.
  - split; [exact Hc | exact Hw].
Defined.

(** [heatCycle] activates the heater once per call.  Whatever it returns,
    the trace has grown by the high-power long-pulse command followed by
    events among which there is no heater command: while the sensor cools
    down it is only measured, never heated.  And if a warning was logged,
    the tool slept 10 s right after the heater's own read, before any
    further measurement. *)
Theorem heatCycle_heats_once (Celsius : Z -> float) (fuel : nat) (d : Dev)
    (lowTemp : float) (w w' : World)
    (r : physic.Env * option heatCycle_error) :
  heatCycle Celsius fuel d lowTemp w = Some (r, w') ->
  exists ext,
    fst w' = fst w ++ [EvTx (c_Addr d) [commandHeaterHigh1s] 0] ++ ext /\
    heater_commands ext = O /\
    heater_commands (fst w') = S (heater_commands (fst w)) /\
    (snd w' = snd w \/
     exists rest,
       ext = [EvSleep (1100 * Millisecond); EvTx (c_Addr d) [] 6;
              EvSleep (10 * Second)] ++ rest).
Proof.
  intros H.
  assert (Hgoal : exists ext,
    fst w' = fst w ++ [EvTx (c_Addr d) [commandHeaterHigh1s] 0] ++ ext /\
    heater_commands ext = O /\
    (snd w' = snd w \/
     exists rest,
       ext = [EvSleep (1100 * Millisecond); EvTx (c_Addr d) [] 6;
              EvSleep (10 * Second)] ++ rest)).
  { unfold heatCycle, liftIO in H. rewrite ActivateHeater_high_long in H.
    destruct (tx_err _) as [msg|].
    - injection H as <- <-. exists []. cbn [fst snd].
      split; [reflexivity|]. split; [reflexivity | left; reflexivity].
    - rewrite parseTemperature_eq in H.
      set (tr1 := ((fst w ++ [EvTx (c_Addr d) [commandHeaterHigh1s] 0])
                     ++ [EvSleep (1100 * Millisecond)]) ++ [EvTx (c_Addr d) [] 6]) in H.
      assert (Htr1 : tr1 = fst w ++ [EvTx (c_Addr d) [commandHeaterHigh1s] 0]
                             ++ [EvSleep (1100 * Millisecond); EvTx (c_Addr d) [] 6])
        by (unfold tr1; rewrite <- !app_assoc; reflexivity).
      assert (Hdone : forall r0, Some ((r0, (tr1, snd w)) : _ * World) = Some (r, w') ->
        exists ext,
          fst w' = fst w ++ [EvTx (c_Addr d) [commandHeaterHigh1s] 0] ++ ext /\
          heater_commands ext = O /\
          (snd w' = snd w \/
           exists rest,
             ext = [EvSleep (1100 * Millisecond); EvTx (c_Addr d) [] 6;
                    EvSleep (10 * Second)] ++ rest)).
      { intros r0 H0. injection H0 as _ <-. cbn [fst snd].
        exists [EvSleep (1100 * Millisecond); EvTx (c_Addr d) [] 6].
        split; [exact Htr1|]. split; [reflexivity | left; reflexivity]. }
      destruct (tx_err _) as [msg|]; [apply (Hdone _ H)|].
      destruct (decodeMeasurement _ _) as [eh [er|]]; [apply (Hdone _ H)|].
      cbn [fst snd] in H.
      destruct (Celsius (physic.Temperature eh) <? lowTemp)%float;
        [apply (Hdone _ H)|].
      destruct (110 <? Celsius (physic.Temperature eh))%float;
        [|apply (Hdone _ H)].
      destruct (coolDown_outcome _ _ _ _ _ _ _ H) as (_ & (ext & He & Hx) & _).
      cbn [fst snd] in He.
      exists ([EvSleep (1100 * Millisecond); EvTx (c_Addr d) [] 6;
               EvSleep (10 * Second)] ++ ext).
      split; [|split].
      + rewrite He, Htr1, <- !app_assoc. reflexivity.
      + rewrite heater_commands_app, Hx. reflexivity.
      + right. exists ext. reflexivity. }
  destruct Hgoal as (ext & He & Hx & Hrest). exists ext.
  split; [exact He|]. split; [exact Hx|]. split; [|exact Hrest].
  rewrite He, !heater_commands_app, Hx.
  change (heater_commands [EvTx (c_Addr d) [commandHeaterHigh1s] 0]) with 1%nat.
  lia.
Qed.

Lemma heatCycle_heats_once_witness :
  heater_commands hot_then_warm_trace = 1%nat.
Proof.
  assert (H : heatCycle physic_Celsius 5 hot_then_warm_dev 20 ([], [])
              = Some ((physic.mkEnv (storedTemperature 0x6666) 0
                         (storedHumidity 0x8000), None),
                      (hot_then_warm_trace, hot_then_warm_log)))
    by (vm_compute; reflexivity).
  destruct (heatCycle_heats_once _ _ _ _ _ _ _ H) as (ext & _ & _ & Hc & _).
  exact Hc.
Defined.
